(** * Chat statistics generator: parser and aggregator

    A shallow embedding of [parse_chat], [filter_last_365_days],
    [normalize_name] and [calculate_stats] of [generate_stats_v3.py],
    and of the part of [main] that chains them, with the properties of
    the log parser and of the statistics aggregator that the
    specification states (C1 to C10) and further properties read off
    the code (X1 to X29).

    Python values are modelled as follows.
    - A [str] is the list of its Unicode code points, so that [len],
      [lstrip] with a set of characters and [in] read as in the source.
    - The two patterns are terms of a small regular-expression syntax,
      run by a backtracking matcher with capture groups.
    - What the interpreter knows about Unicode beyond ASCII (the
      decimal digits that [\d] and [int] accept, and [str.lower]) is a
      parameter of the parser; the theorems hold for every table.
    - A message (a Python [dict]) is a record; the parser keeps the
      dictionaries it allocates in a store and its output list holds
      references into it, because the source mutates a dictionary after
      it has been appended to the output list.
    - A [datetime] is a record of its six fields, built by a partial
      constructor.
    - An uncaught exception is a result of its own ([Raise]).
    - [time_diff], a float in the source, is the exact rational
      seconds/60.  The timestamps have second precision, so the
      comparisons with 0, 30, 60 and 120 agree with the float ones.
    - What the interpreter decides beyond that is a parameter of the
      end of [calculate_stats]: the float that [round(x, 1)] returns
      and the order in which [list] enumerates a set.

    The definitions come first: strings, patterns, timestamps, the
    parser, the aggregator, the sample inputs.  The theorems follow. *)

From Stdlib Require Import String Ascii ZArith List Bool Lia QArith Sorted.
From Stdlib Require Import Permutation.
Import ListNotations.

Local Open Scope Z_scope.

(** ** Python strings *)

Definition codepoint := Z.
Definition str := list codepoint.

(** An ASCII literal as a [str]. *)
Definition lit (s : string) : str :=
  map (fun a => Z.of_N (N_of_ascii a)) (list_ascii_of_string s).

Definition truthy (s : str) : bool :=
  match s with [] => false | _ :: _ => true end.

Fixpoint str_eqb (a b : str) : bool :=
  match a, b with
  | [], [] => true
  | x :: a', y :: b' => (x =? y) && str_eqb a' b'
  | _, _ => false
  end.

(** [s.lstrip(chars)], [s.rstrip(chars)]: [p] is membership in [chars]. *)
Fixpoint lstrip (p : codepoint -> bool) (s : str) : str :=
  match s with
  | c :: s' => if p c then lstrip p s' else s
  | [] => []
  end.

Definition rstrip (p : codepoint -> bool) (s : str) : str :=
  rev (lstrip p (rev s)).

Definition one_of (chars : list codepoint) (c : codepoint) : bool :=
  existsb (Z.eqb c) chars.

(** [str.isspace] of one character: the characters of bidirectional type
    WS, B or S and of category Zs. *)
Definition is_space (c : codepoint) : bool :=
  ((9 <=? c) && (c <=? 13)) || ((28 <=? c) && (c <=? 32))
  || (c =? 133) || (c =? 160) || (c =? 5760)
  || ((8192 <=? c) && (c <=? 8202))
  || (c =? 8232) || (c =? 8233) || (c =? 8239) || (c =? 8287)
  || (c =? 12288).

(** [s.strip()] *)
Definition strip (s : str) : str := rstrip is_space (lstrip is_space s).

(** [s.startswith(p)] *)
Fixpoint startswith (p s : str) : bool :=
  match p, s with
  | [], _ => true
  | x :: p', y :: s' => (x =? y) && startswith p' s'
  | _ :: _, [] => false
  end.

(** [needle in s] *)
Fixpoint contains (needle s : str) : bool :=
  startswith needle s ||
  match s with
  | [] => false
  | _ :: s' => contains needle s'
  end.

(** [s.split(sep)] for a separator of one character. *)
Fixpoint split (sep : codepoint) (s : str) : list str :=
  match s with
  | [] => [[]]
  | c :: s' =>
      if c =? sep then [] :: split sep s'
      else match split sep s' with
           | x :: r => (c :: x) :: r
           | [] => [[c]]
           end
  end.

(** [s.upper()] and [s.lower()] on ASCII letters. *)
Definition upper_char (c : codepoint) : codepoint :=
  if (97 <=? c) && (c <=? 122) then c - 32 else c.
Definition lower_char (c : codepoint) : codepoint :=
  if (65 <=? c) && (c <=? 90) then c + 32 else c.
Definition upper_ascii (s : str) : str := map upper_char s.
Definition lower_ascii (s : str) : str := map lower_char s.

(** The invisible formatting marks that the parser strips:
    U+200E, U+200F, U+202A .. U+202E. *)
Definition marks : list codepoint := [8206; 8207; 8234; 8235; 8236; 8237; 8238].
Definition is_mark : codepoint -> bool := one_of marks.

(** ** Exceptions *)

Inductive exn := ValueError | AttributeError | ZeroDivisionError.

Inductive outcome (A : Type) :=
| Ok (a : A)
| Raise (e : exn).
Arguments Ok {A} a.
Arguments Raise {A} e.

Definition bind {A B} (c : outcome A) (k : A -> outcome B) : outcome B :=
  match c with
  | Ok a => k a
  | Raise e => Raise e
  end.

Notation "x <- c ;; k" := (bind c (fun x => k))
  (at level 61, c at next level, right associativity).

(** A method call on a value that may be [None]. *)
Definition method {A} (o : option A) : outcome A :=
  match o with
  | Some a => Ok a
  | None => Raise AttributeError
  end.

(** ** Regular expressions

    The fragment of [re] that the two patterns of the parser use, with
    the backtracking semantics of [re.match]: alternatives in order,
    greedy repetition, numbered capture groups.  Repetition is only
    ever applied to a character class in the source. *)

Inductive regex :=
| Eps
| Chr (p : codepoint -> bool)
| Cat (r1 r2 : regex)
| Alt (r1 r2 : regex)
| Star (p : codepoint -> bool)
| Grp (n : nat) (r : regex)
| Eos.

(** [r?], [r{1,2}], [r{2}], [p+] *)
Definition Opt (r : regex) : regex := Alt r Eps.
Definition Rep12 (r : regex) : regex := Cat r (Opt r).
Definition Rep2 (r : regex) : regex := Cat r r.
Definition Plus (p : codepoint -> bool) : regex := Cat (Chr p) (Star p).

Definition groups := list (nat * str).

Fixpoint group (n : nat) (g : groups) : option str :=
  match g with
  | [] => None
  | (m, s) :: g' => if Nat.eqb n m then Some s else group n g'
  end.

Section Matcher.
Context {R : Type}.

(** Greedy [p*]: the longest run first, then shorter ones. *)
Fixpoint star (p : codepoint -> bool) (s : str) (k : str -> option R) : option R :=
  match s with
  | c :: s' =>
      if p c then
        match star p s' k with
        | Some x => Some x
        | None => k s
        end
      else k s
  | [] => k s
  end.

Fixpoint rmatch (r : regex) (s : str) (g : groups)
         (k : str -> groups -> option R) : option R :=
  match r with
  | Eps => k s g
  | Chr p =>
      match s with
      | c :: s' => if p c then k s' g else None
      | [] => None
      end
  | Cat a b => rmatch a s g (fun s' g' => rmatch b s' g' k)
  | Alt a b =>
      match rmatch a s g k with
      | Some x => Some x
      | None => rmatch b s g k
      end
  | Star p => star p s (fun s' => k s' g)
  | Grp n a =>
      rmatch a s g
        (fun s' g' => k s' ((n, firstn (length s - length s') s) :: g'))
  | Eos =>
      match s with
      | [] => k s g
      | [10] => k s g
      | _ => None
      end
  end.
End Matcher.

(** [re.match(r, s)]: anchored at the start, not at the end. *)
Definition re_match (r : regex) (s : str) : option groups :=
  rmatch r s [] (fun _ g => Some g).

(** A literal character; with [re.IGNORECASE] a letter matches both of
    its cases. *)
Definition Lit (c : codepoint) : regex := Chr (Z.eqb c).
Definition LitI (c : codepoint) : regex :=
  Chr (fun x => (x =? lower_char c) || (x =? upper_char c)).

Definition not_colon (c : codepoint) : bool := negb (c =? 58).
Definition not_newline (c : codepoint) : bool := negb (c =? 10).

Infix "@@" := Cat (at level 60, right associativity).

(** ** What a pattern accepts

    The relation that the matcher computes, stated without
    continuations, for the proofs about the two patterns. *)

(** [matches r s s' g g']: [r] consumes a prefix of [s] and leaves [s'],
    taking the groups from [g] to [g']. *)
Fixpoint matches (r : regex) (s s' : str) (g g' : groups) : Prop :=
  match r with
  | Eps => s' = s /\ g' = g
  | Chr p => exists c, s = c :: s' /\ p c = true /\ g' = g
  | Cat a b => exists s1 g1, matches a s s1 g g1 /\ matches b s1 s' g1 g'
  | Alt a b => matches a s s' g g' \/ matches b s s' g g'
  | Star p => exists pre, s = pre ++ s' /\ forallb p pre = true /\ g' = g
  | Grp n a =>
      exists g1 pre, matches a s s' g g1 /\ s = pre ++ s' /\ g' = (n, pre) :: g1
  | Eos => s' = s /\ g' = g /\ (s = [] \/ s = [10])
  end.

(** Groups do not change what a pattern accepts. *)
Fixpoint erase (r : regex) : regex :=
  match r with
  | Cat a b => Cat (erase a) (erase b)
  | Alt a b => Alt (erase a) (erase b)
  | Grp _ a => erase a
  | _ => r
  end.

Fixpoint no_eos (r : regex) : bool :=
  match r with
  | Cat a b | Alt a b => no_eos a && no_eos b
  | Grp _ a => no_eos a
  | Eos => false
  | _ => true
  end.

Fixpoint no_grp (r : regex) : bool :=
  match r with
  | Cat a b | Alt a b => no_grp a && no_grp b
  | Grp _ _ => false
  | _ => true
  end.

(** ** [datetime] *)

Record datetime := mkDatetime {
  year : Z; month : Z; day : Z; hour : Z; minute : Z; second : Z
}.

Definition is_leap (y : Z) : bool :=
  (y mod 4 =? 0) && (negb (y mod 100 =? 0) || (y mod 400 =? 0)).

(** The tables and helpers of the [datetime] module. *)
Definition DAYS_IN_MONTH : list Z :=
  [-1; 31; 28; 31; 30; 31; 30; 31; 31; 30; 31; 30; 31].

Definition DAYS_BEFORE_MONTH : list Z :=
  [-1; 0; 31; 59; 90; 120; 151; 181; 212; 243; 273; 304; 334].

Definition days_in_month (y m : Z) : Z :=
  if (m =? 2) && is_leap y then 29 else nth (Z.to_nat m) DAYS_IN_MONTH 0.

Definition days_before_year (y : Z) : Z :=
  let y := y - 1 in y * 365 + y / 4 - y / 100 + y / 400.

Definition days_before_month (y m : Z) : Z :=
  nth (Z.to_nat m) DAYS_BEFORE_MONTH 0
  + (if (2 <? m) && is_leap y then 1 else 0).

(** [datetime(y, m, d, hh, mm, ss)]; [None] stands for the [ValueError]
    of a field out of range. *)
Definition new_datetime (y m d hh mm ss : Z) : option datetime :=
  if (1 <=? y) && (y <=? 9999)
     && (1 <=? m) && (m <=? 12)
     && (1 <=? d) && (d <=? days_in_month y m)
     && (0 <=? hh) && (hh <=? 23)
     && (0 <=? mm) && (mm <=? 59)
     && (0 <=? ss) && (ss <=? 59)
  then Some (mkDatetime y m d hh mm ss)
  else None.

Definition toordinal (t : datetime) : Z :=
  days_before_year (year t) + days_before_month (year t) (month t) + day t.

(** [t.weekday()]: Monday is 0. *)
Definition weekday (t : datetime) : Z := (toordinal t + 6) mod 7.

(** [(a - b).total_seconds()] *)
Definition total_seconds (a b : datetime) : Z :=
  (toordinal a - toordinal b) * 86400
  + ((hour a * 3600 + minute a * 60 + second a)
     - (hour b * 3600 + minute b * 60 + second b)).

(** [a <= b]: the fields compared as a tuple. *)
Definition fields (t : datetime) : list Z :=
  [year t; month t; day t; hour t; minute t; second t].

Fixpoint lex_leb (a b : list Z) : bool :=
  match a, b with
  | x :: a', y :: b' => (x <? y) || ((x =? y) && lex_leb a' b')
  | [], _ => true
  | _ :: _, [] => false
  end.

Definition dt_leb (a b : datetime) : bool := lex_leb (fields a) (fields b).

(** ** Messages *)

Record message := mkMessage {
  date : datetime;
  sender : str;
  content : str;
  is_media : bool;
  is_deleted : bool;
  is_system : bool
}.

Definition set_content (m : message) (c : str) : message :=
  mkMessage (date m) (sender m) c (is_media m) (is_deleted m) (is_system m).

(** ** Lines

    What a line does to the parser depends on the line alone: it is
    skipped, it starts a message, it matches the pattern but its
    timestamp is rejected, or it continues the pending message. *)

Inductive line_kind :=
| Blank
| Start (m : message)
| Rejected
| Continuation (text : str).

(** The timestamps of the lines that start a message, in log order. *)
Definition starts (ks : list line_kind) : list datetime :=
  flat_map (fun k => match k with Start m => [date m] | _ => [] end) ks.

(** The texts of the lines that continue a message, in order. *)
Definition texts_of (ks : list line_kind) : list str :=
  flat_map (fun k => match k with Continuation t => [t] | _ => [] end) ks.

(** ** The log parser *)

Module Parser.

(** The store of the dictionaries allocated so far, the output list
    [messages] as references into it, and the pending message. *)
Record state := mkState {
  store : list message;
  messages : list nat;
  current_message : option nat
}.

Definition initial : state := mkState [] [] None.

Definition deref (h : list message) (r : nat) : list message :=
  match nth_error h r with
  | Some m => [m]
  | None => []
  end.

(** The value of the output list: each reference read in the store. *)
Definition emitted (st : state) : list message :=
  flat_map (deref (store st)) (messages st).

(** [messages.append(current_message)] under [if current_message:] *)
Definition flush (st : state) : state :=
  match current_message st with
  | Some r => mkState (store st) (messages st ++ [r]) (Some r)
  | None => st
  end.

Fixpoint update (h : list message) (r : nat) (f : message -> message) : list message :=
  match h, r with
  | [], _ => []
  | m :: h', O => f m :: h'
  | m :: h', S r' => m :: update h' r' f
  end.

Section WithUnicode.
(** The Unicode tables of the interpreter, which are not part of the
    repository: the decimal value of the non-ASCII decimal digits
    (category Nd), which [\d] and [int] accept, and [str.lower]. *)
Variable decimal_ext : codepoint -> option Z.
Variable lower : str -> str.

Definition decimal (c : codepoint) : option Z :=
  if c <? 128 then
    if (48 <=? c) && (c <=? 57) then Some (c - 48) else None
  else decimal_ext c.

Definition is_digit (c : codepoint) : bool :=
  match decimal c with Some _ => true | None => false end.

Fixpoint int_from (acc : Z) (s : str) : outcome Z :=
  match s with
  | [] => Ok acc
  | c :: s' =>
      match decimal c with
      | Some d => int_from (10 * acc + d) s'
      | None => Raise ValueError
      end
  end.

(** [int(s)] on a string of decimal digits.  [int] also accepts signs,
    underscores and surrounding whitespace; the parser only passes it
    what [\d{1,2}] or [\d{2}] has matched ([match_line_timestamp]). *)
Definition int (s : str) : outcome Z :=
  match s with
  | [] => Raise ValueError
  | _ :: _ => int_from 0 s
  end.

Definition digit : regex := Chr is_digit.
Definition AM : regex := LitI 65 @@ LitI 77.
Definition PM : regex := LitI 80 @@ LitI 77.

(** [\d{1,2}/\d{1,2}/\d{2}] *)
Definition date_re : regex :=
  Rep12 digit @@ Lit 47 @@ Rep12 digit @@ Lit 47 @@ Rep2 digit.

(** [\d{1,2}:\d{2}:\d{2}\s*(?:AM|PM)?] *)
Definition time_re : regex :=
  Rep12 digit @@ Lit 58 @@ Rep2 digit @@ Lit 58 @@ Rep2 digit
  @@ Star is_space @@ Opt (Alt AM PM).

(** The pattern of a message-start line, compiled with
    [re.IGNORECASE]: an optional U+200E, then
    [\[ date , \s* time \] \s* sender : \s* content $] where
    group 1, date, is [date_re]; group 2, time, is [time_re];
    group 3, sender, is [[^:]+]; group 4, content, is [.*].
    The leading [^] adds nothing under [match]. *)
Definition message_pattern : regex :=
  Opt (Lit 8206) @@ Lit 91
  @@ Grp 1 date_re
  @@ Lit 44 @@ Star is_space
  @@ Grp 2 time_re
  @@ Lit 93 @@ Star is_space
  @@ Grp 3 (Plus not_colon)
  @@ Lit 58 @@ Star is_space
  @@ Grp 4 (Star not_newline)
  @@ Eos.

(** [(\d{1,2}):(\d{2}):(\d{2})\s*(AM|PM)?] with [re.IGNORECASE] *)
Definition time_pattern : regex :=
  Grp 1 (Rep12 digit) @@ Lit 58 @@ Grp 2 (Rep2 digit) @@ Lit 58
  @@ Grp 3 (Rep2 digit) @@ Star is_space @@ Opt (Grp 4 (Alt AM PM)).

(** [month, day, year = map(int, date_str.split('/'))] *)
Definition parse_date (date_str : str) : outcome (Z * Z * Z) :=
  match split 47 date_str with
  | [a; b; c] =>
      m <- int a ;; d <- int b ;; y <- int c ;; Ok (m, d, y)
  | _ => Raise ValueError
  end.

(** [2000 + year if year < 50 else 1900 + year] *)
Definition full_year (y : Z) : Z :=
  if y <? 50 then 2000 + y else 1900 + y.

(** The conversion of the hour under [if ampm:]. *)
Definition to_24h (ampm : option str) (hours : Z) : Z :=
  match ampm with
  | Some a =>
      if truthy a then
        if str_eqb (upper_ascii a) (lit "PM") && negb (hours =? 12)
        then hours + 12
        else if str_eqb (upper_ascii a) (lit "AM") && (hours =? 12)
        then 0
        else hours
      else hours
  | None => hours
  end.

(** [time_match = re.match(...)] and the four groups read from it. *)
Definition parse_time (time_str : str) : outcome (Z * Z * Z) :=
  time_match <- method (re_match time_pattern time_str) ;;
  g1 <- method (group 1 time_match) ;;
  hours <- int g1 ;;
  g2 <- method (group 2 time_match) ;;
  minutes <- int g2 ;;
  g3 <- method (group 3 time_match) ;;
  seconds <- int g3 ;;
  let ampm := group 4 time_match in
  Ok (to_24h ampm hours, minutes, seconds).

(** Lines 38 to 56: the timestamp of a message-start line; [Ok None]
    is the [ValueError] of [datetime] caught by the [except]. *)
Definition parse_timestamp (date_str time_str : str) : outcome (option datetime) :=
  mdy <- parse_date date_str ;;
  let '(month, day, year) := mdy in
  hms <- parse_time time_str ;;
  let '(hours, minutes, seconds) := hms in
  Ok (new_datetime (full_year year) month day hours minutes seconds).

(** [message_pattern.match(clean_line) or message_pattern.match(line)] *)
Definition match_line (line : str) : option groups :=
  match re_match message_pattern (lstrip is_mark line) with
  | Some g => Some g
  | None => re_match message_pattern line
  end.

(** The dictionary built at lines 58 to 69. *)
Definition new_message (dt : datetime) (sender0 content0 : str) : message :=
  let content := lstrip is_mark (strip content0) in
  let content_lower := lower content in
  mkMessage dt (strip sender0) content
    (contains (lit "omitted") content_lower)
    (contains (lit "deleted") content_lower
     || contains (lit "this message was deleted") content_lower)
    (contains (lit "frat party") (lower sender0)
     || startswith (lit "2K25") (strip sender0)).

(** [current_message['content'] += ' ' + line.strip()] *)
Definition extend (st : state) (r : nat) (line : str) : state :=
  mkState
    (update (store st) r
       (fun m => set_content m (content m ++ lit " " ++ strip line)))
    (messages st) (current_message st).

(** One iteration of the loop over the lines of the file. *)
Definition parse_line (st : state) (raw : str) : outcome state :=
  let line := rstrip (one_of [10; 13]) raw in
  if negb (truthy line) then Ok st
  else
    match match_line line with
    | Some g =>
        let st := flush st in
        date_str <- method (group 1 g) ;;
        time_str <- method (group 2 g) ;;
        dt <- parse_timestamp date_str time_str ;;
        match dt with
        | None => Ok st
        | Some dt =>
            content <- method (group 4 g) ;;
            sender <- method (group 3 g) ;;
            Ok (mkState (store st ++ [new_message dt sender content])
                  (messages st)
                  (Some (length (store st))))
        end
    | None =>
        match current_message st with
        | Some r => if truthy (strip line) then Ok (extend st r line) else Ok st
        | None => Ok st
        end
    end.

Fixpoint parse_lines (st : state) (lines : list str) : outcome state :=
  match lines with
  | [] => Ok st
  | l :: rest => st' <- parse_line st l ;; parse_lines st' rest
  end.

(** [parse_chat]: the lines as the file iterator yields them. *)
Definition parse_chat (lines : list str) : outcome state :=
  st <- parse_lines initial lines ;; Ok (flush st).

(** The kind of a line, read off one iteration of the loop. *)
Definition classify (raw : str) : line_kind :=
  let line := rstrip (one_of [10; 13]) raw in
  if negb (truthy line) then Blank
  else
    match match_line line with
    | Some g =>
        match group 1 g, group 2 g, group 3 g, group 4 g with
        | Some d, Some t, Some s, Some c =>
            match parse_timestamp d t with
            | Ok (Some dt) => Start (new_message dt s c)
            | _ => Rejected
            end
        | _, _, _, _ => Rejected
        end
    | None =>
        if truthy (strip line) then Continuation (strip line) else Blank
    end.

(** [raw] matches the pattern, its timestamp is valid, and [m] is the
    dictionary that the parser builds from it. *)
Definition message_start (raw : str) (m : message) : Prop :=
  exists g d t s c dt,
    match_line (rstrip (one_of [10; 13]) raw) = Some g
    /\ group 1 g = Some d /\ group 2 g = Some t
    /\ group 3 g = Some s /\ group 4 g = Some c
    /\ parse_timestamp d t = Ok (Some dt)
    /\ m = new_message dt s c.

(** [raw] does not match the pattern and is not blank. *)
Definition continuation (raw : str) : Prop :=
  match_line (rstrip (one_of [10; 13]) raw) = None
  /\ truthy (strip (rstrip (one_of [10; 13]) raw)) = true.

(** The timestamps of the lines that start a message, in log order. *)
Definition start_dates (lines : list str) : list datetime :=
  starts (map classify lines).

(** The stripped texts of the lines that can continue a message, in
    log order: the lines that do not match the pattern and are not
    blank. *)
Definition continuation_texts (lines : list str) : list str :=
  flat_map (fun raw =>
              let line := rstrip (one_of [10; 13]) raw in
              match match_line line with
              | Some _ => []
              | None => if truthy (strip line) then [strip line] else []
              end) lines.

(** [raw] matches the pattern and [datetime] rejects its timestamp. *)
Definition rejected (raw : str) : Prop :=
  exists g d t,
    match_line (rstrip (one_of [10; 13]) raw) = Some g
    /\ group 1 g = Some d /\ group 2 g = Some t
    /\ parse_timestamp d t = Ok None.

End WithUnicode.

(** The tables restricted to ASCII, for inputs written in ASCII. *)
Definition no_ext (c : codepoint) : option Z := None.

End Parser.

(** ** The parser as a fold over classified lines *)

(** The effect of a line of each kind on the state of the parser. *)
Definition step (st : Parser.state) (k : line_kind) : Parser.state :=
  match k with
  | Blank => st
  | Start m =>
      let st := Parser.flush st in
      Parser.mkState (Parser.store st ++ [m]) (Parser.messages st)
        (Some (length (Parser.store st)))
  | Rejected => Parser.flush st
  | Continuation text =>
      match Parser.current_message st with
      | Some r =>
          Parser.mkState
            (Parser.update (Parser.store st) r
               (fun m => set_content m (content m ++ lit " " ++ text)))
            (Parser.messages st) (Parser.current_message st)
      | None => st
      end
  end.

(** The same without references: the messages that are final, and the
    pending message with the number of times it is already in the
    output list. *)
Definition trace : Type := list message * option (message * nat).

(** The output list once the pending message is appended. *)
Definition seal (t : trace) : list message :=
  match snd t with
  | Some (v, k) => fst t ++ repeat v (S k)
  | None => fst t
  end.

(** The effect of a line of each kind on a trace. *)
Definition advance (t : trace) (k : line_kind) : trace :=
  match k, snd t with
  | Blank, _ => t
  | Start m, _ => (seal t, Some (m, O))
  | Rejected, Some (v, k) => (fst t, Some (v, S k))
  | Rejected, None => t
  | Continuation text, Some (v, k) =>
      (fst t, Some (set_content v (content v ++ lit " " ++ text), k))
  | Continuation _, None => t
  end.

(** The output list of the parser for lines of the given kinds. *)
Definition denote (ks : list line_kind) : list message :=
  seal (fold_left advance ks ([], None)).

(** [a <= b] on timestamps. *)
Definition dt_le (a b : datetime) : Prop := dt_leb a b = true.

(** Every message is no later than every message after it in the list. *)
Definition chronological (l : list message) : Prop :=
  StronglySorted dt_le (map date l).

(** The content of a message after continuation lines: each one adds a
    space and its stripped text. *)
Definition tail (texts : list str) : str :=
  concat (map (fun t => lit " " ++ t) texts).

(** The message [m] of a start line after the continuation lines. *)
Definition grown (m : message) (texts : list str) : message :=
  set_content m (content m ++ tail texts).

(** [m] is a message started by a line of [ks] and continued by lines
    of [ks]. *)
Definition from (ks : list line_kind) (m : message) : Prop :=
  exists m0 texts,
    In (Start m0) ks
    /\ Forall (fun t => In (Continuation t) ks) texts
    /\ m = grown m0 texts.

(** A state of the parser and a trace that describe the same run: the
    pending message is the last dictionary of the store, the last [k]
    references of the output list point to it, and the references
    before them point to older dictionaries, which read as [fst t]. *)
Definition represents (st : Parser.state) (t : trace) : Prop :=
  match snd t with
  | None => st = Parser.initial /\ fst t = []
  | Some (v, k) =>
      exists h old,
        Parser.store st = h ++ [v]
        /\ Parser.current_message st = Some (length h)
        /\ Parser.messages st = old ++ repeat (length h) k
        /\ Forall (fun r => (r < length h)%nat) old
        /\ flat_map (Parser.deref h) old = fst t
  end.

(** The timestamp of the pending message, if there is one. *)
Definition pending_date (c : option (message * nat)) : list datetime :=
  match c with
  | Some (v, _) => [date v]
  | None => []
  end.

(** ** The date-range filter *)

(** [datetime(y, m, d)] of a valid date, as a constant of the source. *)
Definition cutoff : datetime := mkDatetime 2024 11 25 0 0 0.
Definition end_date : datetime := mkDatetime 2025 11 25 23 59 59.

Definition filter_last_365_days (messages : list message) : list message :=
  filter (fun m => dt_leb cutoff (date m) && dt_leb (date m) end_date) messages.

(** ** The statistics aggregator *)

(** A [dict] in insertion order.  Its keys are sender names, or the
    fields [[y; m; d]] and [[y; m]] that [strftime('%Y-%m-%d')] and
    [strftime('%Y-%m')] print, which determine the printed key. *)
Definition key := list Z.
Definition dict (V : Type) := list (key * V).

Fixpoint get {V} (k : key) (d : dict V) : option V :=
  match d with
  | [] => None
  | (k', v) :: d' => if str_eqb k k' then Some v else get k d'
  end.

(** [d[k] = v]: in place for a key that is present, else at the end. *)
Fixpoint set {V} (k : key) (v : V) (d : dict V) : dict V :=
  match d with
  | [] => [(k, v)]
  | (k', v') :: d' =>
      if str_eqb k k' then (k', v) :: d' else (k', v') :: set k v d'
  end.

(** [d[k]] of a [defaultdict] whose factory yields [dflt]. *)
Definition lookup {V} (dflt : V) (k : key) (d : dict V) : V :=
  match get k d with
  | Some v => v
  | None => dflt
  end.

(** [s.add(k)] on a set.  A set is held as the list of its elements
    without repetition; the loop reads nothing from a set, and the end
    of [calculate_stats] reads its size and lists it. *)
Definition add (k : key) (s : list key) : list key :=
  if existsb (str_eqb k) s then s else s ++ [k].

(** [list(s)] of a set: the elements of the set, each once, in an
    order that the interpreter chooses (for a set of strings, by their
    hashes, which change from run to run).  The order is a parameter
    of the aggregator. *)
Record listing := mkListing {
  enumerate :> list key -> list key;
  enumerate_set : forall s, Permutation (enumerate s) s
}.

(** [l[i] += 1] for an index in range, which the hour and the weekday
    of a [datetime] are in the lists of 24 and of 7 counters. *)
Fixpoint incr_at (i : nat) (l : list Z) : list Z :=
  match l, i with
  | [], _ => []
  | x :: l', O => (x + 1) :: l'
  | x :: l', S i' => x :: incr_at i' l'
  end.

(** [a < b] on rationals. *)
Definition Qltb (a b : Q) : bool :=
  (Qnum a * Zpos (Qden b) <? Qnum b * Zpos (Qden a)).

Definition b2z (b : bool) : Z := if b then 1 else 0.

(** [name_map.get(name, name)]; the last key ends in U+1F60D. *)
Definition normalize_name (name : str) : str :=
  let name_map : dict str :=
    [ (lit "Abanob Nashat", lit "Abanob");
      (lit "Fady Barsoum", lit "Fady B");
      (lit "Fady Henen", lit "Fady H");
      (lit "David Hana", lit "David");
      (lit "Meena Ibrahim", lit "Meena");
      (lit "Andro A.", lit "Andro");
      (lit "Kirolous Kamel", lit "Kiro");
      (lit "Thomas hanna David's Brother", lit "Thomas");
      (lit "Aziz El Romancy", lit "Aziz");
      (lit "Aziz El Romancy" ++ [128525], lit "Aziz") ] in
  lookup name name name_map.

(** The per-person dictionary while the messages are processed.  The
    counters that only scan the text of a message with a pattern
    ([emojis], [laughs], [caps_messages], [links], [mentions]) and the
    word table are left out: they write no other key and do not raise. *)
Module Person.
Record t := mk {
  messages : Z;
  media : Z;
  total_chars : Z;
  response_times : list Q;
  active_days : list key;
  by_hour : list Z;
  by_day : list Z;
  questions : Z;
  exclamations : Z;
  long_messages : Z;
  short_messages : Z;
  first_message : option datetime;
  last_message : option datetime;
  conversations_started : Z;
  replied_to_count : Z;
  weekend_messages : Z;
  late_night_messages : Z;
  morning_messages : Z;
  message_lengths : list Z
}.

(** The factory of the [defaultdict]. *)
Definition fresh : t :=
  mk 0 0 0 [] [] (repeat 0 24) (repeat 0 7) 0 0 0 0 None None 0 0 0 0 0 [].

Definition replied (p : t) : t :=
  mk (messages p) (media p) (total_chars p) (response_times p)
     (active_days p) (by_hour p) (by_day p) (questions p) (exclamations p)
     (long_messages p) (short_messages p) (first_message p) (last_message p)
     (conversations_started p) (replied_to_count p + 1)
     (weekend_messages p) (late_night_messages p) (morning_messages p)
     (message_lengths p).
End Person.

(** The per-person dictionary after the finalization loop:
    [response_times] and [message_lengths] are deleted and the derived
    keys are added.  [active_days] is the set listed, [first_message]
    and [last_message] are kept as timestamps; the source prints them
    with [isoformat]. *)
Module Final.
Record t := mk {
  messages : Z;
  media : Z;
  total_chars : Z;
  active_days : list key;
  by_hour : list Z;
  by_day : list Z;
  questions : Z;
  exclamations : Z;
  long_messages : Z;
  short_messages : Z;
  first_message : option datetime;
  last_message : option datetime;
  conversations_started : Z;
  replied_to_count : Z;
  weekend_messages : Z;
  late_night_messages : Z;
  morning_messages : Z;
  active_days_count : Z;
  avg_chars : Z;
  avg_response : option Q;
  fastest_response : option Q;
  peak_hour : Z;
  peak_day : Z;
  engagement_rate : Q;
  media_ratio : Q
}.
End Final.

Module Stats.

Record longest := mkLongest {
  l_sender : str; l_length : Z; l_preview : str
}.

(** The [stats] dictionary and [prev_message] during the main loop. *)
Record t := mk {
  total_messages : Z;
  total_media : Z;
  total_chars : Z;
  by_person : dict Person.t;
  by_month : dict Z;
  by_hour : list Z;
  by_day_of_week : list Z;
  daily_counts : dict Z;
  longest_message : longest;
  active_days : list key;
  prev_message : option message
}.

Definition initial : t :=
  mk 0 0 0 [] [] (repeat 0 24) (repeat 0 7) [] (mkLongest [] 0 []) [] None.

(** [(msg['date'] - prev_message['date']).total_seconds() / 60] *)
Definition time_diff (msg prev : message) : Q :=
  Qmake (total_seconds (date msg) (date prev)) 60.

Definition len {A} (l : list A) : Z := Z.of_nat (length l).

(** The dictionary of the current sender after lines 173 to 249. *)
Definition update_person (p : Person.t) (prev_message : option message)
           (msg : message) : Person.t :=
  let date_key := [year (date msg); month (date msg); day (date msg)] in
  let hour := hour (date msg) in
  let day_of_week := (weekday (date msg) + 1) mod 7 in
  let text := negb (is_media msg) in
  let n := len (content msg) in
  Person.mk
    (Person.messages p + 1)
    (Person.media p + b2z (is_media msg))
    (Person.total_chars p + (if text then n else 0))
    (match prev_message with
     | Some prev =>
         if negb (str_eqb (sender prev) (sender msg))
            && Qltb 0 (time_diff msg prev) && Qltb (time_diff msg prev) 60
         then Person.response_times p ++ [time_diff msg prev]
         else Person.response_times p
     | None => Person.response_times p
     end)
    (add date_key (Person.active_days p))
    (incr_at (Z.to_nat hour) (Person.by_hour p))
    (incr_at (Z.to_nat day_of_week) (Person.by_day p))
    (Person.questions p + b2z (text && existsb (Z.eqb 63) (content msg)))
    (Person.exclamations p + b2z (text && existsb (Z.eqb 33) (content msg)))
    (Person.long_messages p + b2z (text && (200 <? n)))
    (Person.short_messages p + b2z (text && negb (200 <? n) && (n <? 10)))
    (match Person.first_message p with
     | None => Some (date msg)
     | Some d => Some d
     end)
    (Some (date msg))
    (Person.conversations_started p
     + match prev_message with
       | Some prev => b2z (Qltb 120 (time_diff msg prev))
       | None => 0
       end)
    (Person.replied_to_count p)
    (Person.weekend_messages p + b2z ((day_of_week =? 0) || (day_of_week =? 6)))
    (Person.late_night_messages p + b2z ((23 <=? hour) || (hour <? 4)))
    (Person.morning_messages p + b2z ((5 <=? hour) && (hour <? 9)))
    (if text then Person.message_lengths p ++ [n] else Person.message_lengths p).

(** Lines 251 to 254: the previous sender has been replied to. *)
Definition update_replied (people : dict Person.t) (prev_message : option message)
           (msg : message) : dict Person.t :=
  match prev_message with
  | Some prev =>
      if negb (str_eqb (sender prev) (sender msg))
         && Qltb (time_diff msg prev) 30
      then
        let prev_sender := normalize_name (sender prev) in
        match get prev_sender people with
        | Some p => set prev_sender (Person.replied p) people
        | None => people
        end
      else people
  | None => people
  end.

Definition update_longest (l : longest) (sender : str) (msg : message) : longest :=
  let n := len (content msg) in
  if negb (is_media msg) && (l_length l <? n)
  then mkLongest sender n
         (firstn 150 (content msg) ++ (if 150 <? n then lit "..." else []))
  else l.

(** One iteration of the main loop. *)
Definition process (st : t) (msg : message) : t :=
  if is_system msg then st
  else
    let sender := normalize_name (sender msg) in
    let date_key := [year (date msg); month (date msg); day (date msg)] in
    let month_key := [year (date msg); month (date msg)] in
    let hour := hour (date msg) in
    let day_of_week := (weekday (date msg) + 1) mod 7 in
    let person := lookup Person.fresh sender (by_person st) in
    let people :=
      set sender (update_person person (prev_message st) msg) (by_person st) in
    mk (total_messages st + 1)
       (total_media st + b2z (is_media msg))
       (total_chars st + (if is_media msg then 0 else len (content msg)))
       (update_replied people (prev_message st) msg)
       (set month_key (lookup 0 month_key (by_month st) + 1) (by_month st))
       (incr_at (Z.to_nat hour) (by_hour st))
       (incr_at (Z.to_nat day_of_week) (by_day_of_week st))
       (set date_key (lookup 0 date_key (daily_counts st) + 1) (daily_counts st))
       (update_longest (longest_message st) sender msg)
       (add date_key (active_days st))
       (Some msg).

Definition aggregate (messages : list message) : t :=
  fold_left process messages initial.

(** [round(x)], to the nearest integer with ties to even, on the exact
    quotient; the quotient of the interpreter is the nearest float,
    which rounds to the same integer while [total_chars] is below
    2^52. *)
Definition round (x : Q) : Z :=
  let d := Zpos (Qden x) in
  let q := Qnum x / d in
  let r := Qnum x mod d in
  if 2 * r <? d then q
  else if d <? 2 * r then q + 1
  else if Z.even q then q else q + 1.

(** A rounding to one decimal: to the nearest with ties to even, on
    the exact value.  It is the rounding of the sample inputs; the
    interpreter rounds the float it holds, which is not always the
    exact value (3 seconds are 0.05 minutes here and a float slightly
    above it there, rounded to 0.1). *)
Definition round1_exact (x : Q) : Q := Qmake (round (x * 10)) 10.

(** [sum(l)] *)
Definition Qsum (l : list Q) : Q := fold_left Qplus l 0%Q.

(** [a / b] *)
Definition div (a b : Q) : outcome Q :=
  if Qnum b =? 0 then Raise ZeroDivisionError else Ok (a / b)%Q.

(** [min(l)] *)
Definition Qmin (l : list Q) : outcome Q :=
  match l with
  | [] => Raise ValueError
  | x :: l' => Ok (fold_left (fun m y => if Qltb y m then y else m) l' x)
  end.

(** The first position of the largest entry of a list that is not
    empty. *)
Fixpoint argmax_from (i best_i best : Z) (l : list Z) : Z :=
  match l with
  | [] => best_i
  | x :: l' =>
      if best <? x then argmax_from (i + 1) i x l'
      else argmax_from (i + 1) best_i best l'
  end.

Definition peak (l : list Z) : Z :=
  match l with
  | [] => 0
  | x :: l' => argmax_from 1 0 x l'
  end.

(** [l.index(max(l))]; [max] raises on an empty list. *)
Definition index_of_max (l : list Z) : outcome Z :=
  match l with
  | [] => Raise ValueError
  | _ :: _ => Ok (peak l)
  end.

(** [max(d.items(), key=lambda x: x[1])]: the first largest item, and
    [ValueError] on an empty dictionary. *)
Fixpoint max_from (best : key * Z) (d : dict Z) : key * Z :=
  match d with
  | [] => best
  | x :: d' => if snd best <? snd x then max_from x d' else max_from best d'
  end.

Definition max_item (d : dict Z) : outcome (key * Z) :=
  match d with
  | [] => Raise ValueError
  | x :: d' => Ok (max_from x d')
  end.

(** The dictionary that [calculate_stats] returns. *)
Record result := mkResult {
  r_total_messages : Z;
  r_total_media : Z;
  r_total_chars : Z;
  r_by_person : dict Final.t;
  r_by_month : dict Z;
  r_by_hour : list Z;
  r_by_day_of_week : list Z;
  r_daily_counts : dict Z;
  r_longest_message : longest;
  r_active_days : list key;
  r_most_active_day : key * Z;
  r_total_days : Z
}.

(** The end of [calculate_stats] depends on two choices of the
    interpreter that the model leaves open: the float that
    [round(x, 1)] returns and the order in which [list] enumerates a
    set. *)
Section WithInterpreter.
Variable round1 : Q -> Q.
Variable list_of_set : listing.

(** [round(a / b * 100, 1) if messages > 0 else 0], lines 274 and 275. *)
Definition ratio (a messages : Z) : outcome Q :=
  if 0 <? messages
  then q <- div (inject_Z a) (inject_Z messages) ;; Ok (round1 (q * 100)%Q)
  else Ok 0%Q.

(** The body of the finalization loop, lines 259 to 283, in the order
    of the source.  A division by zero, [min] and [max] of an empty
    list raise. *)
Definition finalize (p : Person.t) : outcome Final.t :=
  let active_days_count := len (Person.active_days p) in
  let active_days := list_of_set (Person.active_days p) in
  let text_messages := Person.messages p - Person.media p in
  avg_chars <-
    (if 0 <? text_messages
     then q <- div (inject_Z (Person.total_chars p)) (inject_Z text_messages) ;;
          Ok (round q)
     else Ok 0) ;;
  responses <-
    (match Person.response_times p with
     | [] => Ok (None, None)
     | l =>
         mean <- div (Qsum l) (inject_Z (len l)) ;;
         least <- Qmin l ;;
         Ok (Some (round1 mean), Some (round1 least))
     end) ;;
  peak_hour <- index_of_max (Person.by_hour p) ;;
  peak_day <- index_of_max (Person.by_day p) ;;
  engagement_rate <- ratio (Person.replied_to_count p) (Person.messages p) ;;
  media_ratio <- ratio (Person.media p) (Person.messages p) ;;
  Ok (Final.mk
        (Person.messages p) (Person.media p) (Person.total_chars p)
        active_days (Person.by_hour p) (Person.by_day p)
        (Person.questions p) (Person.exclamations p)
        (Person.long_messages p) (Person.short_messages p)
        (Person.first_message p) (Person.last_message p)
        (Person.conversations_started p) (Person.replied_to_count p)
        (Person.weekend_messages p) (Person.late_night_messages p)
        (Person.morning_messages p)
        active_days_count avg_chars (fst responses) (snd responses)
        peak_hour peak_day engagement_rate media_ratio).

(** The finalization loop over [by_person], in the order of its
    keys. *)
Fixpoint finalize_all (people : dict Person.t) : outcome (dict Final.t) :=
  match people with
  | [] => Ok []
  | (name, p) :: people' =>
      f <- finalize p ;;
      rest <- finalize_all people' ;;
      Ok ((name, f) :: rest)
  end.

Definition calculate_stats (messages : list message) : outcome result :=
  let st := aggregate messages in
  people <- finalize_all (by_person st) ;;
  most_active_day <- max_item (daily_counts st) ;;
  let active_days := list_of_set (active_days st) in
  Ok (mkResult (total_messages st) (total_media st) (total_chars st)
        people (by_month st) (by_hour st) (by_day_of_week st)
        (daily_counts st) (longest_message st) active_days
        most_active_day (len active_days)).

End WithInterpreter.

(** The listing of a set in the order of insertion, for the sample
    inputs. *)
Definition in_order : listing :=
  mkListing (fun s => s) (fun s => Permutation_refl s).

End Stats.

(** The response-time samples collected for a name so far. *)
Definition samples (st : Stats.t) (name : str) : list Q :=
  Person.response_times (lookup Person.fresh name (Stats.by_person st)).

Definition replies (st : Stats.t) (name : str) : Z :=
  Person.replied_to_count (lookup Person.fresh name (Stats.by_person st)).

(** ** Sample inputs

    The logs below are written in ASCII, on which the Unicode tables
    play no part: [Parser.no_ext] knows no digit beyond ASCII and
    [lower_ascii] lowers the ASCII letters. *)

Definition parse (lines : list string) : outcome Parser.state :=
  Parser.parse_chat Parser.no_ext lower_ascii (map lit lines).

Definition state_of (lines : list string) : Parser.state :=
  match parse lines with
  | Ok st => st
  | Raise _ => Parser.initial
  end.

Definition alice_0900 (text : string) : message :=
  mkMessage (mkDatetime 2024 11 25 9 0 0) (lit "Alice") (lit text)
    false false false.

Definition bob_0850 (text : string) : message :=
  mkMessage (mkDatetime 2024 11 25 8 50 0) (lit "Bob") (lit text)
    false false false.

(** A valid message, then a start line dated November 31. *)
Definition log_invalid_date : list string :=
  ["[11/25/24, 09:00:00 AM] Alice: Hello";
   "[11/31/24, 09:05:00 AM] Bob: Hi"]%string.

(** Two valid messages, the later one first in the log. *)
Definition log_out_of_order : list string :=
  ["[11/25/24, 09:00:00 AM] Alice: later";
   "[11/25/24, 08:50:00 AM] Bob: earlier"]%string.

Definition log_in_order : list string :=
  ["[11/25/24, 08:50:00 AM] Bob: earlier";
   "continued";
   "[11/31/24, 08:55:00 AM] Bob: rejected";
   "[11/25/24, 09:00:00 AM] Alice: later"]%string.

(** A text message whose second line holds the word "omitted". *)
Definition log_omitted_later : list string :=
  ["[11/25/24, 09:00:00 AM] Alice: Hello";
   "image omitted"]%string.

(** Two messages with the same timestamp, sender and content: the
    first has the word on its start line, the second on a continuation
    line. *)
Definition log_omitted_twice : list string :=
  ["[11/25/24, 09:00:00 AM] Alice: a omitted";
   "[11/25/24, 09:00:00 AM] Alice: a";
   "omitted"]%string.

Definition log_deleted_twice : list string :=
  ["[11/25/24, 09:00:00 AM] Alice: a deleted";
   "[11/25/24, 09:00:00 AM] Alice: a";
   "deleted"]%string.

(** The capture groups of the line "[11/25/24, 09:00:00 AM] Alice: a". *)
Definition groups_alice_a : groups :=
  [(4%nat, lit "a"); (3%nat, lit "Alice"); (2%nat, lit "09:00:00 AM");
   (1%nat, lit "11/25/24")].

(** A group of three lines, then a start line dated November 31; and a
    group whose own start line is dated November 31. *)
Definition log_group_then_invalid : list string :=
  ["[11/25/24, 09:00:00 AM] Alice: Hello";
   "second";
   "third";
   "[11/31/24, 09:05:00 AM] Bob: Hi"]%string.

Definition log_invalid_group : list string :=
  ["[11/31/24, 09:00:00 AM] Alice: Hello";
   "second";
   "third"]%string.

Definition log_groups : list string :=
  ["[11/25/24, 08:50:00 AM] Bob: earlier";
   "[11/25/24, 09:00:00 AM] Alice: Hello";
   "second";
   "  third  ";
   "[11/25/24, 08:50:00 AM] Bob: next"]%string.

Definition at_0900 (name text : string) : message :=
  mkMessage (mkDatetime 2024 11 25 9 0 0) (lit name) (lit text)
    false false false.

Definition at_0910 (name text : string) : message :=
  mkMessage (mkDatetime 2024 11 25 9 10 0) (lit name) (lit text)
    false false false.

Definition system_message : message :=
  mkMessage (mkDatetime 2024 11 25 9 0 0) (lit "2K25 Frat Party")
    (lit "Alice joined") false false true.

Definition aziz_0900 : message :=
  mkMessage (mkDatetime 2024 11 25 9 0 0) (lit "Aziz El Romancy")
    (lit "first") false false false.

Definition aziz_0905 : message :=
  mkMessage (mkDatetime 2024 11 25 9 5 0) (lit "Aziz El Romancy" ++ [128525])
    (lit "second") false false false.

(** Five minutes before and five minutes after the midnight between
    November 30 and December 1. *)
Definition before_midnight (name text : string) : message :=
  mkMessage (mkDatetime 2024 11 30 23 55 0) (lit name) (lit text)
    false false false.

Definition after_midnight (name text : string) : message :=
  mkMessage (mkDatetime 2024 12 1 0 5 0) (lit name) (lit text)
    false false false.

(** A message at nine on a day of November 2024. *)
Definition on_day (d : Z) (name text : string) : message :=
  mkMessage (mkDatetime 2024 11 d 9 0 0) (lit name) (lit text)
    false false false.

(** One message on the 25th, two on the 26th and two on the 27th. *)
Definition three_days : list message :=
  [on_day 25 "X" "a"; on_day 26 "Y" "b"; on_day 26 "X" "c";
   on_day 27 "Y" "d"; on_day 27 "X" "e"].

Definition media_0900 : message :=
  mkMessage (mkDatetime 2024 11 25 9 0 0) (lit "Alice")
    (lit "image omitted") true false false.

(** ** Further notions for the properties of the code *)

(** A string without whitespace at either end. *)
Definition edge_ok (c : option codepoint) : Prop :=
  match c with
  | Some x => is_space x = false
  | None => True
  end.

Definition trimmed (s : str) : Prop :=
  edge_ok (hd_error s) /\ edge_ok (hd_error (rev s)).

(** The values that [datetime] accepts. *)
Definition valid_datetime (t : datetime) : Prop :=
  1 <= year t <= 9999
  /\ 1 <= month t <= 12
  /\ 1 <= day t <= days_in_month (year t) (month t)
  /\ 0 <= hour t <= 23 /\ 0 <= minute t <= 59 /\ 0 <= second t <= 59.

(** The seconds from the start of day 0 of the calendar to [t]. *)
Definition seconds_since_origin (t : datetime) : Z :=
  toordinal t * 86400 + hour t * 3600 + minute t * 60 + second t.

(** The kinds of line that open a group or are skipped. *)
Definition is_start (k : line_kind) : bool :=
  match k with Start _ => true | _ => false end.

Definition is_rejected (k : line_kind) : bool :=
  match k with Rejected => true | _ => false end.

Definition rejections (ks : list line_kind) : nat :=
  length (filter is_rejected ks).

(** The day in the year, from 1. *)
Definition day_of_year (t : datetime) : Z :=
  days_before_month (year t) (month t) + day t.

(** The messages that the aggregator counts. *)
Definition counted (m : message) : bool := negb (is_system m).

(** The sum of a counter over the values of a dictionary, and the sum
    of a list of counters. *)
Definition sum_over {V} (f : V -> Z) (d : dict V) : Z :=
  fold_right (fun kv acc => f (snd kv) + acc) 0 d.

Definition total (l : list Z) : Z := fold_right Z.add 0 l.

(** A dictionary of a person with its 24 and its 7 counters. *)
Definition full_counters (p : Person.t) : Prop :=
  length (Person.by_hour p) = 24%nat /\ length (Person.by_day p) = 7%nat.

(** What the guards of the finalization loop give for the dictionary
    [p] of a person, finalized as [f]. *)
Definition guarded (p : Person.t) (f : Final.t) : Prop :=
  (Person.messages p - Person.media p = 0 -> Final.avg_chars f = 0)
  /\ (Person.response_times p = [] ->
      Final.avg_response f = None /\ Final.fastest_response f = None)
  /\ (Person.response_times p <> [] ->
      Final.avg_response f <> None /\ Final.fastest_response f <> None).

(** The dictionary of a name during the main loop; a name that is not
    a key yet reads as the dictionary that the factory would make. *)
Definition person_of (st : Stats.t) (name : str) : Person.t :=
  lookup Person.fresh name (Stats.by_person st).

(** Whether the message [m] counts as a reply to [name]. *)
Definition replies_to (prev : option message) (m : message) (name : str) : bool :=
  match prev with
  | Some p =>
      negb (str_eqb (sender p) (sender m))
      && Qltb (Stats.time_diff m p) 30
      && str_eqb name (normalize_name (sender p))
  | None => false
  end.

(** The pairs of a message and the message after it. *)
Fixpoint adjacent (l : list message) : list (message * message) :=
  match l with
  | [] => []
  | a :: l' =>
      match l' with
      | [] => []
      | b :: _ => (a, b) :: adjacent l'
      end
  end.

(** The pairs that the loop compares: a message that is counted and
    the message counted before it. *)
Definition pairs (msgs : list message) : list (message * message) :=
  adjacent (filter counted msgs).

(** The messages that are counted for a name. *)
Definition named (name : str) (m : message) : bool :=
  counted m && str_eqb (normalize_name (sender m)) name.

(** [main] from the lines of the file to the call of
    [calculate_stats]; the prints in between write to the terminal
    only, and the rendering of the statistics comes after. *)
Definition main_stats (decimal_ext : codepoint -> option Z) (lower : str -> str)
           (round1 : Q -> Q) (list_of_set : listing)
           (lines : list str) : outcome Stats.result :=
  st <- Parser.parse_chat decimal_ext lower lines ;;
  Stats.calculate_stats round1 list_of_set
    (filter_last_365_days (Parser.emitted st)).

(** * Facts about the matcher *)

Lemma matches_suffix r : forall s s' g g',
  matches r s s' g g' -> exists pre, s = pre ++ s'.
Proof.
  induction r; simpl; intros s s' g g' H.
  - destruct H as [-> _]. now exists [].
  - destruct H as (c & -> & _). now exists [c].
  - destruct H as (s1 & g1 & Ha & Hb).
    apply IHr1 in Ha. apply IHr2 in Hb.
    destruct Ha as [p1 ->], Hb as [p2 ->].
    exists (p1 ++ p2). now rewrite app_assoc.
  - destruct H as [H | H]; eauto.
  - destruct H as (pre & -> & _). now exists pre.
  - destruct H as (g1 & pre & _ & -> & _). now exists pre.
  - destruct H as [-> _]. now exists [].
Qed.

Lemma firstn_consumed (pre s' : str) :
  firstn (length (pre ++ s') - length s') (pre ++ s') = pre.
Proof.
  rewrite length_app, Nat.add_sub.
  rewrite firstn_app, Nat.sub_diag, firstn_all. simpl. apply app_nil_r.
Qed.

Section MatcherFacts.
Context {R : Type}.

Lemma star_sound p : forall s (k : str -> option R) x,
  star p s k = Some x ->
  exists pre s', s = pre ++ s' /\ forallb p pre = true /\ k s' = Some x.
Proof.
  induction s as [|c s IH]; simpl; intros k x H.
  - now exists [], [].
  - destruct (p c) eqn:Hc.
    + destruct (star p s k) eqn:Hs.
      * inversion H; subst.
        destruct (IH _ _ Hs) as (pre & s' & -> & Hp & Hk).
        exists (c :: pre), s'. simpl. now rewrite Hc, Hp.
      * now exists [], (c :: s).
    + now exists [], (c :: s).
Qed.

Lemma star_complete p : forall pre s' (k : str -> option R),
  forallb p pre = true -> k s' <> None -> star p (pre ++ s') k <> None.
Proof.
  induction pre as [|c pre IH]; simpl; intros s' k Hp Hk.
  - destruct s' as [|c s']; simpl; auto.
    destruct (p c); auto.
    destruct (star p s' k); [discriminate | auto].
  - apply andb_prop in Hp. destruct Hp as [Hc Hp]. rewrite Hc.
    specialize (IH s' k Hp Hk).
    destruct (star p (pre ++ s') k); [discriminate | contradiction].
Qed.

Lemma rmatch_sound r : forall s g (k : str -> groups -> option R) x,
  rmatch r s g k = Some x ->
  exists s' g', matches r s s' g g' /\ k s' g' = Some x.
Proof.
  induction r; simpl; intros s g k x H.
  - now exists s, g.
  - destruct s as [|c s]; [discriminate|].
    destruct (p c) eqn:Hc; [|discriminate].
    exists s, g. split; [now exists c | assumption].
  - apply IHr1 in H. destruct H as (s1 & g1 & Ha & H).
    apply IHr2 in H. destruct H as (s' & g' & Hb & H).
    exists s', g'. split; [now exists s1, g1 | assumption].
  - destruct (rmatch r1 s g k) eqn:Ha.
    + inversion H; subst. apply IHr1 in Ha.
      destruct Ha as (s' & g' & Ha & Hk). exists s', g'. auto.
    + apply IHr2 in H. destruct H as (s' & g' & Hb & Hk).
      exists s', g'. auto.
  - apply star_sound in H. destruct H as (pre & s' & -> & Hp & Hk).
    exists s', g. split; [now exists pre | assumption].
  - apply IHr in H. destruct H as (s' & g1 & Ha & Hk).
    destruct (matches_suffix _ _ _ _ _ Ha) as [pre ->].
    rewrite firstn_consumed in Hk.
    exists s', ((n, pre) :: g1). split; [now exists g1, pre | assumption].
  - destruct s as [|c s]; [exists [], g; auto|].
    repeat match type of H with
           | match ?v with _ => _ end = Some _ => destruct v; try discriminate
           end.
    exists [10], g. auto.
Qed.

Lemma rmatch_complete r : forall s s' g g' (k : str -> groups -> option R),
  matches r s s' g g' -> k s' g' <> None -> rmatch r s g k <> None.
Proof.
  induction r; simpl; intros s s' g g' k H Hk.
  - now destruct H as [-> ->].
  - destruct H as (c & -> & Hc & ->). now rewrite Hc.
  - destruct H as (s1 & g1 & Ha & Hb).
    eapply IHr1; [exact Ha|]. eapply IHr2; eauto.
  - destruct (rmatch r1 s g k) eqn:Ha; [discriminate|].
    destruct H as [H | H].
    + exfalso. eapply IHr1; eauto.
    + eapply IHr2; eauto.
  - destruct H as (pre & -> & Hp & ->). now apply star_complete.
  - destruct H as (g1 & pre & Ha & -> & ->).
    eapply IHr; [exact Ha|]. now rewrite firstn_consumed.
  - destruct H as (-> & -> & [-> | ->]); assumption.
Qed.
End MatcherFacts.

Lemma re_match_sound r s g :
  re_match r s = Some g -> exists s', matches r s s' [] g.
Proof.
  unfold re_match. intros H. apply rmatch_sound in H.
  destruct H as (s' & g' & Hm & Hk). inversion Hk; subst. now exists s'.
Qed.

Lemma re_match_complete r s s' g :
  matches r s s' [] g -> re_match r s <> None.
Proof.
  intros H. unfold re_match. eapply rmatch_complete; [exact H | discriminate].
Qed.

Lemma matches_erase r : forall s s' g g1 g0,
  matches (erase r) s s' g g1 -> exists g', matches r s s' g0 g'.
Proof.
  induction r; simpl; intros s s' g g1 g0 H.
  - destruct H as [-> _]. now exists g0.
  - destruct H as (c & -> & Hc & _). exists g0. now exists c.
  - destruct H as (s1 & g2 & Ha & Hb).
    destruct (IHr1 _ _ _ _ g0 Ha) as [ga Ha'].
    destruct (IHr2 _ _ _ _ ga Hb) as [gb Hb'].
    exists gb. now exists s1, ga.
  - destruct H as [H | H].
    + destruct (IHr1 _ _ _ _ g0 H) as [g' H']. exists g'. now left.
    + destruct (IHr2 _ _ _ _ g0 H) as [g' H']. exists g'. now right.
  - destruct H as (pre & -> & Hp & _). exists g0. now exists pre.
  - destruct (IHr _ _ _ _ g0 H) as [g' H'].
    destruct (matches_suffix _ _ _ _ _ H') as [pre ->].
    exists ((n, pre) :: g'). now exists g', pre.
  - destruct H as (-> & _ & H). now exists g0.
Qed.

Lemma matches_no_grp r : no_grp r = true -> forall s s' g g',
  matches r s s' g g' -> g' = g.
Proof.
  induction r; simpl; intros Hr s s' g g' H; try discriminate.
  - tauto.
  - destruct H as (c & _ & _ & H). exact H.
  - apply andb_prop in Hr. destruct Hr as [H1 H2].
    destruct H as (s1 & g1 & Ha & Hb).
    apply (IHr1 H1) in Ha. apply (IHr2 H2) in Hb. congruence.
  - apply andb_prop in Hr. destruct Hr as [H1 H2].
    destruct H as [H | H]; eauto.
  - destruct H as (pre & _ & _ & H). exact H.
  - tauto.
Qed.

Lemma matches_tail r : no_eos r = true -> forall pre t g g' t',
  matches r (pre ++ t) t g g' -> matches r (pre ++ t') t' g g'.
Proof.
  induction r; simpl; intros Hr pre t g g' t' H; try discriminate.
  - destruct H as [H ->]. split; [|reflexivity].
    assert (pre = []) as ->; [|reflexivity].
    apply (app_inv_tail t). simpl. congruence.
  - destruct H as (c & H & Hc & ->). exists c. repeat split; auto.
    assert (pre = [c]) as ->; [|reflexivity].
    apply (app_inv_tail t). simpl. congruence.
  - apply andb_prop in Hr. destruct Hr as [Hr1 Hr2].
    destruct H as (s1 & g1 & Ha & Hb).
    destruct (matches_suffix _ _ _ _ _ Hb) as [p2 ->].
    destruct (matches_suffix _ _ _ _ _ Ha) as [p1 Hp].
    rewrite app_assoc in Hp. apply app_inv_tail in Hp. subst pre.
    exists (p2 ++ t'), g1. rewrite <- app_assoc in *. split.
    + eapply IHr1; eauto.
    + eapply IHr2; eauto.
  - apply andb_prop in Hr. destruct Hr as [Hr1 Hr2].
    destruct H as [H | H]; [left | right]; eauto.
  - destruct H as (p0 & H & Hp & ->). apply app_inv_tail in H. subst p0.
    now exists pre.
  - destruct H as (g1 & p0 & Ha & H & ->). apply app_inv_tail in H. subst p0.
    exists g1, pre. repeat split; eauto.
Qed.

(** * The store and the trace agree *)

Lemma deref_old (h x : list message) r :
  (r < length h)%nat -> Parser.deref (h ++ x) r = Parser.deref h r.
Proof.
  intros H. unfold Parser.deref. now rewrite nth_error_app1.
Qed.

Lemma deref_last (h : list message) v x :
  Parser.deref (h ++ v :: x) (length h) = [v].
Proof.
  unfold Parser.deref. rewrite nth_error_app2, Nat.sub_diag; [reflexivity | lia].
Qed.

Lemma emitted_old (h x : list message) old :
  Forall (fun r => (r < length h)%nat) old ->
  flat_map (Parser.deref (h ++ x)) old = flat_map (Parser.deref h) old.
Proof.
  induction 1 as [|r old Hr _ IH]; simpl; [reflexivity|].
  now rewrite deref_old, IH.
Qed.

Lemma emitted_copies (h : list message) v x k :
  flat_map (Parser.deref (h ++ v :: x)) (repeat (length h) k) = repeat v k.
Proof.
  induction k as [|k IH]; simpl; [reflexivity|].
  now rewrite deref_last, IH.
Qed.

Lemma update_last (h : list message) v f :
  Parser.update (h ++ [v]) (length h) f = h ++ [f v].
Proof.
  induction h as [|m h IH]; simpl; [reflexivity|]. now rewrite IH.
Qed.

Lemma repeat_snoc {A} (x : A) k : repeat x k ++ [x] = repeat x (S k).
Proof.
  induction k as [|k IH]; simpl; [reflexivity|]. now rewrite IH.
Qed.

Lemma represents_flush st v k done :
  represents st (done, Some (v, k)) ->
  represents (Parser.flush st) (done, Some (v, S k)).
Proof.
  unfold represents. simpl. intros (h & old & Hs & Hc & Hm & Ho & Hd).
  exists h, old. unfold Parser.flush. rewrite Hc. simpl.
  rewrite Hm, <- app_assoc, repeat_snoc. auto.
Qed.

Lemma represents_seal st t :
  represents st t -> Parser.emitted (Parser.flush st) = seal t.
Proof.
  destruct t as [done [[v k]|]]; intros H.
  - apply represents_flush in H. unfold represents in H. cbn [fst snd] in H.
    destruct H as (h & old & Hs & Hc & Hm & Ho & Hd).
    unfold Parser.emitted, seal. simpl fst. simpl snd.
    rewrite Hs, Hm, flat_map_app, emitted_old, emitted_copies by assumption.
    now rewrite Hd.
  - destruct H as [-> H]. simpl in H. subst. reflexivity.
Qed.

Lemma store_flush st : Parser.store (Parser.flush st) = Parser.store st.
Proof. unfold Parser.flush. now destruct (Parser.current_message st). Qed.

(** No reference of the output list dangles. *)
Lemma represents_refs st t :
  represents st t ->
  Forall (fun r => (r < length (Parser.store st))%nat)
    (Parser.messages (Parser.flush st)).
Proof.
  destruct t as [done [[v k]|]]; intros H.
  - apply represents_flush in H. unfold represents in H. cbn [fst snd] in H.
    destruct H as (h & old & Hs & Hc & Hm & Ho & _).
    rewrite <- store_flush.
    rewrite Hs, Hm, length_app. cbn [length]. apply Forall_app. split.
    + eapply Forall_impl; [|exact Ho]. simpl. intros r Hr. lia.
    + apply Forall_forall. intros r Hr. apply repeat_spec in Hr. lia.
  - destruct H as [-> _]. constructor.
Qed.

Lemma represents_step st t k :
  represents st t -> represents (step st k) (advance t k).
Proof.
  destruct t as [done [[v n]|]]; intros H.
  - destruct k as [|m| |text]; simpl.
    + exact H.
    + pose proof (represents_seal _ _ H) as He.
      apply represents_flush in H. unfold represents in H. cbn [fst snd] in H.
      destruct H as (h & old & Hs & Hc & Hm & Ho & Hd).
      unfold represents. simpl fst. simpl snd.
      exists (h ++ [v]), (old ++ repeat (length h) (S n)). repeat split.
      * now rewrite Hs.
      * now rewrite Hs.
      * rewrite Hm. simpl. now rewrite app_nil_r.
      * apply Forall_app. split.
        -- eapply Forall_impl; [|exact Ho]. simpl. intros r Hr.
           rewrite length_app. simpl. lia.
        -- apply Forall_forall. intros r Hr. apply repeat_spec in Hr.
           rewrite length_app. simpl. lia.
      * rewrite <- He. unfold Parser.emitted. now rewrite Hs, Hm.
    + now apply represents_flush.
    + unfold represents in *. simpl in *.
      destruct H as (h & old & Hs & Hc & Hm & Ho & Hd).
      exists h, old. rewrite Hc. simpl. rewrite Hs, update_last. auto.
  - destruct H as [-> H]. simpl in H. subst done.
    destruct k as [|m| |text]; simpl; try (split; reflexivity).
    unfold represents. simpl. exists [], []. repeat split. constructor.
Qed.

Lemma represents_fold ks : forall st t,
  represents st t -> represents (fold_left step ks st) (fold_left advance ks t).
Proof.
  induction ks as [|k ks IH]; simpl; intros st t H; [exact H|].
  apply IH. now apply represents_step.
Qed.

(** * The order of the output *)

Lemma lex_leb_refl l : lex_leb l l = true.
Proof.
  induction l as [|x l IH]; simpl; [reflexivity|].
  rewrite Z.eqb_refl, IH. apply orb_true_r.
Qed.

Lemma dt_le_refl a : dt_le a a.
Proof. apply lex_leb_refl. Qed.

Section Stutter.
Context {A : Type} (R : A -> A -> Prop).

Lemma Forall_stutter (P : A -> Prop) l1 x n l2 :
  Forall P (l1 ++ x :: l2) -> Forall P (l1 ++ repeat x n ++ l2).
Proof.
  intros H. apply Forall_app in H. destruct H as [H1 H2].
  inversion H2; subst. apply Forall_app. split; [assumption|].
  apply Forall_app. split; [|assumption].
  apply Forall_forall. intros y Hy. apply repeat_spec in Hy. now subst.
Qed.

(** Repeating an entry of a sorted list in place keeps it sorted. *)
Lemma sorted_stutter l1 : forall x n l2,
  R x x ->
  StronglySorted R (l1 ++ x :: l2) ->
  StronglySorted R (l1 ++ repeat x n ++ l2).
Proof.
  induction l1 as [|a l1 IH]; simpl; intros x n l2 Hx H.
  - apply StronglySorted_inv in H. destruct H as [H2 Hall].
    induction n as [|n IHn]; simpl; [assumption|].
    constructor; [assumption|].
    apply Forall_app. split; [|assumption].
    apply Forall_forall. intros y Hy. apply repeat_spec in Hy. now subst.
  - apply StronglySorted_inv in H. destruct H as [H2 Hall].
    constructor; [now apply IH | now apply Forall_stutter].
Qed.
End Stutter.

Lemma seal_sorted done c :
  StronglySorted dt_le (map date done ++ pending_date c) ->
  chronological (seal (done, c)).
Proof.
  unfold chronological, seal. destruct c as [[v k]|]; cbn [fst snd].
  - intros H. rewrite map_app, map_repeat.
    rewrite <- (app_nil_r (repeat _ _)).
    apply sorted_stutter; [apply dt_le_refl | exact H].
  - simpl. now rewrite app_nil_r.
Qed.

Lemma advance_sorted ks : forall done c,
  StronglySorted dt_le (map date done ++ pending_date c ++ starts ks) ->
  chronological (seal (fold_left advance ks (done, c))).
Proof.
  induction ks as [|k ks IH]; intros done c H.
  - simpl in *. rewrite app_nil_r in H. now apply seal_sorted.
  - simpl fold_left. destruct k as [|m| |text].
    + apply IH. exact H.
    + unfold advance. apply IH. simpl pending_date.
      simpl starts in H. unfold seal.
      destruct c as [[v n]|]; cbn [fst snd pending_date app] in H |- *.
      * rewrite map_app, map_repeat, <- app_assoc.
        apply (sorted_stutter dt_le (map date done) (date v) (S n));
          [apply dt_le_refl | exact H].
      * exact H.
    + destruct c as [[v n]|]; apply IH; exact H.
    + destruct c as [[v n]|]; apply IH; exact H.
Qed.

Lemma denote_sorted ks :
  StronglySorted dt_le (starts ks) -> chronological (denote ks).
Proof.
  intros H. apply advance_sorted. exact H.
Qed.

(** * Where the messages of the output come from *)

Lemma grown_nil m : grown m [] = m.
Proof.
  destruct m. unfold grown, set_content, tail. simpl. now rewrite app_nil_r.
Qed.

Lemma grown_snoc m texts t :
  set_content (grown m texts) (content (grown m texts) ++ lit " " ++ t)
  = grown m (texts ++ [t]).
Proof.
  unfold grown, set_content, tail. simpl.
  rewrite map_app, concat_app. simpl. rewrite app_nil_r.
  now rewrite <- app_assoc.
Qed.

Lemma from_mono ks ks' m : incl ks ks' -> from ks m -> from ks' m.
Proof.
  intros Hi (m0 & texts & H0 & Ht & ->). exists m0, texts.
  repeat split; auto.
  eapply Forall_impl; [|exact Ht]. simpl. auto.
Qed.

Lemma advance_from ks : forall seen t,
  Forall (from seen) (seal t) ->
  Forall (from (seen ++ ks)) (seal (fold_left advance ks t)).
Proof.
  induction ks as [|k ks IH]; intros seen t H.
  - simpl. now rewrite app_nil_r.
  - simpl fold_left.
    replace (seen ++ k :: ks) with ((seen ++ [k]) ++ ks)
      by now rewrite <- app_assoc.
    apply IH.
    assert (Hm : Forall (from (seen ++ [k])) (seal t)).
    { eapply Forall_impl; [|exact H]. intros m. apply from_mono.
      apply incl_appl, incl_refl. }
    destruct t as [done c]. destruct k as [|m| |text].
    + exact Hm.
    + unfold advance, seal at 1. cbn [fst snd]. apply Forall_app. split.
      * exact Hm.
      * constructor; [|constructor]. exists m, []. split; [|split].
        -- apply in_or_app. right. now left.
        -- constructor.
        -- symmetry. apply grown_nil.
    + destruct c as [[v n]|]; [|exact Hm].
      unfold advance, seal in *. cbn [fst snd] in *.
      apply Forall_app in Hm. destruct Hm as [Hd Hv].
      apply Forall_app. split; [exact Hd|].
      inversion Hv; subst. now repeat constructor.
    + destruct c as [[v n]|]; [|exact Hm].
      unfold advance, seal in *. cbn [fst snd] in *.
      apply Forall_app in Hm. destruct Hm as [Hd Hv].
      apply Forall_app. split; [exact Hd|].
      inversion Hv as [|? ? (m0 & texts & H0 & Ht & ->) _]; subst.
      apply Forall_forall. intros y Hy. apply repeat_spec in Hy. subst y.
      exists m0, (texts ++ [text]). split; [|split].
      * exact H0.
      * apply Forall_app. split; [exact Ht|].
        constructor; [|constructor]. apply in_or_app. right. now left.
      * apply grown_snoc.
Qed.

Lemma denote_from ks : Forall (from ks) (denote ks).
Proof.
  apply (advance_from ks [] ([], None)). constructor.
Qed.

(** * The output list is built group by group *)

Lemma advance_frame ks : forall done0 done c,
  fold_left advance ks (done0 ++ done, c)
  = (done0 ++ fst (fold_left advance ks (done, c)),
     snd (fold_left advance ks (done, c))).
Proof.
  induction ks as [|k ks IH]; intros done0 done c; [reflexivity|].
  simpl fold_left.
  destruct k as [|m| |text]; [apply IH | | |].
  - unfold advance, seal. cbn [fst snd].
    destruct c as [[v n]|]; [rewrite <- app_assoc|]; apply IH.
  - destruct c as [[v n]|]; apply IH.
  - destruct c as [[v n]|]; apply IH.
Qed.

Lemma seal_frame done0 t :
  seal (done0 ++ fst t, snd t) = done0 ++ seal t.
Proof.
  unfold seal. cbn [fst snd]. destruct (snd t) as [[v n]|];
    [now rewrite app_assoc | reflexivity].
Qed.

Lemma denote_app_start ks1 m ks2 :
  denote (ks1 ++ Start m :: ks2) = denote ks1 ++ denote (Start m :: ks2).
Proof.
  unfold denote. rewrite fold_left_app. simpl fold_left.
  change (seal ([], None)) with (@nil message).
  rewrite <- (app_nil_r (seal (fold_left advance ks1 ([], None)))) at 1.
  rewrite advance_frame, seal_frame. reflexivity.
Qed.

(** A message-start line, two continuation lines, and then the end of
    the log or the next message-start line. *)
Lemma denote_group ks1 m t1 t2 ks2 :
  ks2 = [] \/ (exists m1 ks, ks2 = Start m1 :: ks) ->
  denote (ks1 ++ Start m :: Continuation t1 :: Continuation t2 :: ks2)
  = denote ks1 ++ [grown m [t1; t2]] ++ denote ks2.
Proof.
  intros H. rewrite denote_app_start. f_equal.
  assert (Hg : set_content
                 (set_content m (content m ++ lit " " ++ t1))
                 (content (set_content m (content m ++ lit " " ++ t1))
                  ++ lit " " ++ t2)
               = grown m [t1; t2]).
  { unfold grown, set_content, tail. simpl. f_equal.
    rewrite <- app_assoc. simpl. now rewrite app_nil_r. }
  destruct H as [-> | (m1 & ks & ->)].
  - unfold denote. simpl. simpl in Hg. now rewrite Hg.
  - change (Start m :: Continuation t1 :: Continuation t2 :: Start m1 :: ks)
      with ([Start m; Continuation t1; Continuation t2] ++ Start m1 :: ks).
    rewrite denote_app_start. f_equal. unfold denote. simpl. simpl in Hg.
    now rewrite Hg.
Qed.

Lemma grown_cons m t texts :
  grown (set_content m (content m ++ lit " " ++ t)) texts
  = grown m (t :: texts).
Proof.
  unfold grown, set_content, tail. simpl. now rewrite <- !app_assoc.
Qed.

(** The lines after a start line, up to the next one: the pending
    message takes the text of each continuation line, and is appended
    once more at each rejected line. *)
Lemma advance_body body : forall done m n,
  forallb (fun k => negb (is_start k)) body = true ->
  fold_left advance body (done, Some (m, n))
  = (done, Some (grown m (texts_of body), (n + rejections body)%nat)).
Proof.
  induction body as [|k body IH]; intros done m n H.
  - simpl. now rewrite grown_nil, Nat.add_0_r.
  - simpl in H. apply andb_prop in H. destruct H as [Hk Hb].
    destruct k as [|m'| |text]; try discriminate;
      cbn [fold_left advance fst snd]; rewrite (IH _ _ _ Hb).
    + reflexivity.
    + change (rejections (Rejected :: body)) with (S (rejections body)).
      now rewrite Nat.add_succ_r.
    + change (texts_of (Continuation text :: body))
        with (text :: texts_of body).
      now rewrite grown_cons.
Qed.

Lemma denote_block ks1 m body ks2 :
  forallb (fun k => negb (is_start k)) body = true ->
  ks2 = [] \/ (exists m1 ks, ks2 = Start m1 :: ks) ->
  denote (ks1 ++ Start m :: body ++ ks2)
  = denote ks1 ++ repeat (grown m (texts_of body)) (S (rejections body))
    ++ denote ks2.
Proof.
  intros Hb H. rewrite denote_app_start. f_equal.
  assert (Hg : denote (Start m :: body)
               = repeat (grown m (texts_of body)) (S (rejections body))).
  { unfold denote. cbn [fold_left advance fst snd].
    change (seal ([], None)) with (@nil message).
    now rewrite (advance_body _ _ _ _ Hb). }
  destruct H as [-> | (m1 & ks & ->)].
  - rewrite !app_nil_r. exact Hg.
  - change (Start m :: body ++ Start m1 :: ks)
      with ((Start m :: body) ++ Start m1 :: ks).
    now rewrite denote_app_start, Hg.
Qed.

(** * Stripping *)

Lemma lstrip_nil p s : lstrip p s = [] -> forallb p s = true.
Proof.
  induction s as [|c s IH]; simpl; [reflexivity|].
  destruct (p c); [exact IH | discriminate].
Qed.

Lemma lstrip_keep p c s : p c = false -> lstrip p (c :: s) = c :: s.
Proof. intros H. simpl. now rewrite H. Qed.

Lemma lstrip_split p s :
  exists pre, s = pre ++ lstrip p s /\ forallb p pre = true
              /\ (lstrip p s = [] \/ exists c r, lstrip p s = c :: r /\ p c = false).
Proof.
  induction s as [|c s (pre & Hs & Hp & Hl)]; simpl.
  - exists []. auto.
  - destruct (p c) eqn:Hc.
    + exists (c :: pre). simpl. rewrite Hc, Hp.
      split; [congruence | split; [reflexivity | exact Hl]].
    + exists []. simpl. split; [reflexivity | split; [reflexivity|]].
      right. now exists c, s.
Qed.

(** A line that [strip] empties holds nothing but whitespace. *)
Lemma strip_nil s : truthy (strip s) = false -> forallb is_space s = true.
Proof.
  unfold strip, rstrip. intros H.
  destruct (rev (lstrip is_space (rev (lstrip is_space s)))) eqn:E;
    [|discriminate].
  apply (f_equal (@rev _)) in E. rewrite rev_involutive in E. simpl in E.
  apply lstrip_nil in E. rewrite forallb_forall in E.
  destruct (lstrip_split is_space s) as (pre & Hs & Hp & [Hl | (c & r & Hl & Hc)]).
  - rewrite Hl, app_nil_r in Hs. now subst.
  - rewrite (E c) in Hc; [discriminate|].
    rewrite Hl. apply in_rev. rewrite rev_involutive. now left.
Qed.

Lemma mark_not_space c : is_space c = true -> is_mark c = false.
Proof.
  intros H. destruct (is_mark c) eqn:Hm; [|reflexivity].
  unfold is_mark, one_of, marks in Hm. simpl in Hm.
  repeat (apply orb_prop in Hm; destruct Hm as [Hm | Hm]);
    try discriminate; apply Z.eqb_eq in Hm; subst; discriminate.
Qed.

(** * Lines that start no message *)

Lemma advance_no_start ks :
  forallb (fun k => negb (is_start k)) ks = true ->
  fold_left advance ks ([], None) = ([], None).
Proof.
  induction ks as [|k ks IH]; simpl; intros H; [reflexivity|].
  apply andb_prop in H. destruct H as [Hk Hs].
  destruct k; try discriminate; simpl; now apply IH.
Qed.

Lemma denote_drop_prefix ks ks' :
  forallb (fun k => negb (is_start k)) ks = true ->
  denote (ks ++ ks') = denote ks'.
Proof.
  intros H. unfold denote. now rewrite fold_left_app, (advance_no_start _ H).
Qed.

Lemma advance_no_rejected ks : forall done m,
  forallb (fun k => negb (is_rejected k)) ks = true ->
  map date (seal (fold_left advance ks (done, Some (m, O))))
  = map date done ++ date m :: starts ks.
Proof.
  induction ks as [|k ks IH]; intros done m H.
  - unfold seal. simpl. now rewrite map_app.
  - simpl in H. apply andb_prop in H. destruct H as [Hk Hs].
    destruct k as [|m'| |text]; try discriminate;
      cbn [fold_left advance fst snd]; rewrite (IH _ _ Hs).
    + reflexivity.
    + unfold seal. simpl. now rewrite map_app, <- app_assoc.
    + reflexivity.
Qed.

Lemma denote_no_rejected ks :
  forallb (fun k => negb (is_rejected k)) ks = true ->
  map date (denote ks) = starts ks.
Proof.
  induction ks as [|k ks IH]; intros H; [reflexivity|].
  pose proof H as H'. simpl in H. apply andb_prop in H. destruct H as [Hk Hs].
  destruct k as [|m| |text]; try discriminate.
  - exact (IH Hs).
  - unfold denote. cbn [fold_left advance fst snd].
    change (seal ([], None)) with (@nil message).
    now rewrite (advance_no_rejected _ _ _ Hs).
  - exact (IH Hs).
Qed.

(** * Blank lines and rejected lines *)

Lemma denote_drop_blank ks ks' :
  denote (ks ++ Blank :: ks') = denote (ks ++ ks').
Proof. unfold denote. now rewrite !fold_left_app. Qed.

(** Before the first message there is no output. *)
Lemma advance_pending ks : forall t,
  (snd t = None -> fst t = []) ->
  snd (fold_left advance ks t) = None -> fst (fold_left advance ks t) = [].
Proof.
  induction ks as [|k ks IH]; intros t Ht; [exact Ht|].
  simpl. apply IH. destruct t as [done [[v n]|]]; destruct k; simpl;
    try discriminate; exact Ht.
Qed.

Lemma denote_snoc_rejected ks :
  denote (ks ++ [Rejected])
  = denote ks ++ match rev (denote ks) with
                 | m :: _ => [m]
                 | [] => []
                 end.
Proof.
  unfold denote. rewrite fold_left_app. simpl fold_left.
  pose proof (advance_pending ks ([], None) (fun _ => eq_refl)) as H.
  destruct (fold_left advance ks ([], None)) as [done [[v n]|]].
  - change (done ++ repeat v (S (S n))
            = (done ++ repeat v (S n))
              ++ match rev (done ++ repeat v (S n)) with
                 | m :: _ => [m]
                 | [] => []
                 end).
    assert (E : done ++ repeat v (S n) = (done ++ repeat v n) ++ [v])
      by (rewrite <- repeat_snoc, app_assoc; reflexivity).
    rewrite E, rev_app_distr. cbn [rev app].
    rewrite <- (repeat_snoc v (S n)), <- (repeat_snoc v n), !app_assoc.
    reflexivity.
  - simpl in H. rewrite (H eq_refl). reflexivity.
Qed.

(** * Substrings *)

Lemma startswith_contains p q : forall s,
  startswith (p ++ q) s = true -> contains q s = true.
Proof.
  induction p as [|x p IH]; intros s H.
  - destruct s; simpl in *; rewrite H; reflexivity.
  - destruct s as [|y s]; [discriminate|]. simpl in H.
    apply andb_prop in H. destruct H as [_ H].
    change (contains q (y :: s))
      with (startswith q (y :: s) || contains q s).
    rewrite (IH _ H). apply orb_true_r.
Qed.

Lemma contains_suffix p q s :
  contains (p ++ q) s = true -> contains q s = true.
Proof.
  induction s as [|y s IH]; intros H.
  - simpl in H. rewrite orb_false_r in H. now apply (startswith_contains p).
  - change (contains (p ++ q) (y :: s))
      with (startswith (p ++ q) (y :: s) || contains (p ++ q) s) in H.
    apply orb_prop in H. destruct H as [H|H].
    + now apply (startswith_contains p).
    + change (contains q (y :: s))
        with (startswith q (y :: s) || contains q s).
      rewrite (IH H). apply orb_true_r.
Qed.

(** * More about stripping *)

Lemma lstrip_incl p s c : In c (lstrip p s) -> In c s.
Proof.
  destruct (lstrip_split p s) as (pre & Hs & _). intros H.
  rewrite Hs. apply in_or_app. now right.
Qed.

Lemma strip_incl s c : In c (strip s) -> In c s.
Proof.
  unfold strip, rstrip. intros H. apply in_rev in H.
  apply lstrip_incl in H. apply in_rev in H. now apply lstrip_incl in H.
Qed.

Lemma lstrip_first p s c r : lstrip p s = c :: r -> p c = false.
Proof.
  destruct (lstrip_split p s) as (pre & _ & _ & [H | (c' & r' & H & Hc)]);
    intros E; rewrite E in H; [discriminate|]. now inversion H; subst.
Qed.

Lemma hd_error_app {A} (a b : list A) x :
  hd_error a = Some x -> hd_error (a ++ b) = Some x.
Proof. destruct a; [discriminate | trivial]. Qed.

(** What [strip] returns has no whitespace at either end. *)
Lemma strip_trimmed s : trimmed (strip s).
Proof.
  unfold trimmed, strip, rstrip. rewrite rev_involutive.
  set (L := lstrip is_space s).
  destruct (lstrip is_space (rev L)) as [|c r] eqn:E; [simpl; auto|].
  split.
  - destruct (lstrip_split is_space (rev L)) as (pre & Hs & _).
    rewrite E in Hs. apply (f_equal (@rev _)) in Hs.
    rewrite rev_involutive, rev_app_distr in Hs.
    destruct (rev (c :: r)) as [|x xs] eqn:Er.
    { apply (f_equal (@length _)) in Er. rewrite length_rev in Er.
      discriminate. }
    simpl. rewrite Hs in *. subst L. simpl in Hs.
    now apply lstrip_first in Hs.
  - simpl. now apply lstrip_first in E.
Qed.

Lemma lstrip_app_all p ms l :
  forallb p ms = true -> lstrip p (ms ++ l) = lstrip p l.
Proof.
  induction ms as [|c ms IH]; simpl; intros H; [reflexivity|].
  apply andb_prop in H. destruct H as [-> H]. now apply IH.
Qed.

Lemma lstrip_app_keep p a b :
  lstrip p a <> [] -> lstrip p (a ++ b) = lstrip p a ++ b.
Proof.
  induction a as [|c a IH]; simpl; intros H; [contradiction|].
  destruct (p c); [now apply IH | reflexivity].
Qed.

Lemma rstrip_app_keep p a b :
  rstrip p b <> [] -> rstrip p (a ++ b) = a ++ rstrip p b.
Proof.
  unfold rstrip. intros H. rewrite rev_app_distr, lstrip_app_keep.
  - now rewrite rev_app_distr, rev_involutive.
  - intros E. apply H. now rewrite E.
Qed.

Lemma rstrip_cons_keep p c r : p c = false -> rstrip p (c :: r) = c :: rstrip p r.
Proof.
  intros Hc. unfold rstrip. simpl rev.
  destruct (lstrip p (rev r)) as [|x xs] eqn:E.
  - apply lstrip_nil in E. rewrite (lstrip_app_all _ _ _ E). simpl.
    now rewrite Hc.
  - rewrite lstrip_app_keep by (rewrite E; discriminate).
    rewrite E, rev_app_distr. reflexivity.
Qed.

Lemma new_datetime_valid y m d hh mm ss t :
  new_datetime y m d hh mm ss = Some t -> valid_datetime t.
Proof.
  unfold new_datetime, valid_datetime.
  match goal with
  | |- (if ?b then _ else _) = _ -> _ => destruct b eqn:E; [|discriminate]
  end.
  intros H. inversion H; subst t. simpl.
  repeat (apply andb_prop in E; destruct E as [E ?]).
  repeat match goal with
         | H : (_ <=? _) = true |- _ => apply Z.leb_le in H
         end.
  repeat split; assumption.
Qed.

(** * Facts about the parser *)

Section ParserFacts.
Variable decimal_ext : codepoint -> option Z.
Variable lower : str -> str.

Local Abbreviation decimal := (Parser.decimal decimal_ext).
Local Abbreviation is_digit := (Parser.is_digit decimal_ext).
Local Abbreviation int := (Parser.int decimal_ext).
Local Abbreviation date_re := (Parser.date_re decimal_ext).
Local Abbreviation time_re := (Parser.time_re decimal_ext).
Local Abbreviation time_pattern := (Parser.time_pattern decimal_ext).
Local Abbreviation message_pattern := (Parser.message_pattern decimal_ext).
Local Abbreviation parse_date := (Parser.parse_date decimal_ext).
Local Abbreviation parse_time := (Parser.parse_time decimal_ext).
Local Abbreviation parse_timestamp := (Parser.parse_timestamp decimal_ext).
Local Abbreviation match_line := (Parser.match_line decimal_ext).
Local Abbreviation new_message := (Parser.new_message lower).
Local Abbreviation parse_line := (Parser.parse_line decimal_ext lower).
Local Abbreviation parse_lines := (Parser.parse_lines decimal_ext lower).
Local Abbreviation parse_chat := (Parser.parse_chat decimal_ext lower).
Local Abbreviation classify := (Parser.classify decimal_ext lower).
Local Abbreviation start_dates := (Parser.start_dates decimal_ext lower).
Local Abbreviation message_start := (Parser.message_start decimal_ext lower).
Local Abbreviation continuation := (Parser.continuation decimal_ext).

Lemma digit_decimal c : is_digit c = true -> exists d, decimal c = Some d.
Proof.
  unfold Parser.is_digit. destruct (decimal c) as [d|]; [eauto | discriminate].
Qed.

(** No decimal digit is one of the ASCII separators. *)
Lemma digit_not_ascii c x :
  is_digit c = true -> x < 48 \/ (57 < x /\ x < 128) -> (c =? x) = false.
Proof.
  intros Hc Hx. apply Z.eqb_neq. intros ->.
  unfold Parser.is_digit, Parser.decimal in Hc.
  destruct (x <? 128) eqn:H1.
  - destruct ((48 <=? x) && (x <=? 57)) eqn:H2; [|discriminate]. lia.
  - lia.
Qed.

Lemma int_from_digits s : forall acc,
  forallb is_digit s = true -> exists z, Parser.int_from decimal_ext acc s = Ok z.
Proof.
  induction s as [|c s IH]; simpl; intros acc H; [eauto|].
  apply andb_prop in H. destruct H as [Hc Hs].
  destruct (digit_decimal _ Hc) as [d ->]. auto.
Qed.

Lemma int_digits s :
  forallb is_digit s = true -> s <> [] -> exists z, int s = Ok z.
Proof.
  intros H Hs. destruct s as [|c s]; [contradiction|].
  unfold Parser.int. now apply int_from_digits.
Qed.

Ltac break_step :=
  match goal with
  | H : exists _, _ |- _ => destruct H
  | H : _ /\ _ |- _ => destruct H
  | H : _ \/ _ |- _ => destruct H
  | H : (_ =? _) = true |- _ => apply Z.eqb_eq in H
  | H : _ || _ = true |- _ => apply orb_prop in H
  | H : ?x :: ?y :: ?T = ?pre ++ ?T |- _ =>
      apply (app_inv_tail T [x; y] pre) in H
  | H : ?x :: ?T = ?pre ++ ?T |- _ => apply (app_inv_tail T [x] pre) in H
  | H : ?pre ++ ?T = ?x :: ?y :: ?T |- _ =>
      apply (app_inv_tail T pre [x; y]) in H
  | H : ?pre ++ ?T = ?x :: ?T |- _ => apply (app_inv_tail T pre [x]) in H
  end.

Ltac break := repeat (break_step; subst).

Ltac digits :=
  repeat match goal with
    | H : is_digit ?c = true |- context [?c =? ?x] =>
        rewrite (digit_not_ascii c x H) by lia
    end;
  simpl;
  repeat match goal with
    | H : is_digit ?c = true |- context [decimal ?c] =>
        let d := fresh "d" in destruct (digit_decimal c H) as [d ->]
    end.

(** What [date_re] accepts, [parse_date] reads. *)
Lemma date_ok d r g g' :
  matches date_re (d ++ r) r g g' -> exists m dd y, parse_date d = Ok (m, dd, y).
Proof.
  intros H. apply (matches_tail date_re eq_refl _ _ _ _ []) in H.
  rewrite app_nil_r in H.
  cbn [matches Parser.date_re Parser.digit Rep12 Rep2 Opt Lit] in H. break.
  all: unfold Parser.parse_date; simpl; digits; simpl; eauto.
Qed.

Lemma time_matches t r g g' :
  matches time_re (t ++ r) r g g' -> exists tm, re_match time_pattern t = Some tm.
Proof.
  intros H. apply (matches_tail time_re eq_refl _ _ _ _ []) in H.
  rewrite app_nil_r in H.
  change time_re with (erase time_pattern) in H.
  destruct (matches_erase _ _ _ _ _ [] H) as [g2 H2].
  apply re_match_complete in H2.
  destruct (re_match time_pattern t) as [tm|]; [eauto | contradiction].
Qed.

Lemma time_ok t r g g' :
  matches time_re (t ++ r) r g g' -> exists h mi s, parse_time t = Ok (h, mi, s).
Proof.
  intros H. destruct (time_matches _ _ _ _ H) as [tm E].
  unfold Parser.parse_time. rewrite E. clear H.
  apply re_match_sound in E. destruct E as [s' E].
  cbn [matches Parser.time_pattern Parser.digit Parser.AM Parser.PM
         Rep12 Rep2 Opt Lit LitI] in E.
  break.
  all: simpl; unfold Parser.int; simpl; digits; do 3 eexists; reflexivity.
Qed.

(** The four groups of a match of [message_pattern], and what the
    first two of them hold. *)
Lemma message_pattern_groups l g :
  re_match message_pattern l = Some g ->
  exists d t s c rd rt gd gd' gt gt',
    g = [(4%nat, c); (3%nat, s); (2%nat, t); (1%nat, d)]
    /\ matches date_re (d ++ rd) rd gd gd'
    /\ matches time_re (t ++ rt) rt gt gt'.
Proof.
  intros H. apply re_match_sound in H. destruct H as [s' H].
  cbn [matches Parser.message_pattern Opt Lit Plus] in H.
  break.
  all: match goal with
       | Hd : matches date_re _ _ _ _, Ht : matches time_re _ _ _ _ |- _ =>
           pose proof (matches_no_grp date_re eq_refl _ _ _ _ Hd);
           pose proof (matches_no_grp time_re eq_refl _ _ _ _ Ht); subst;
           do 10 eexists; split; [reflexivity | split; [exact Hd | exact Ht]]
       end.
Qed.

(** A line that matches the pattern never makes the parser raise. *)
Lemma match_line_timestamp l g :
  match_line l = Some g ->
  exists d t s c dt,
    g = [(4%nat, c); (3%nat, s); (2%nat, t); (1%nat, d)]
    /\ parse_timestamp d t = Ok dt.
Proof.
  unfold Parser.match_line. intros H.
  assert (exists l', re_match message_pattern l' = Some g) as [l' Hl].
  { destruct (re_match message_pattern (lstrip is_mark l)) eqn:E.
    - inversion H; subst. eauto.
    - eauto. }
  destruct (message_pattern_groups _ _ Hl)
    as (d & t & s & c & rd & rt & gd & gd' & gt & gt' & -> & Hd & Ht).
  destruct (date_ok _ _ _ _ Hd) as (m & dd & y & Ed).
  destruct (time_ok _ _ _ _ Ht) as (h & mi & ss & Et).
  exists d, t, s, c. unfold Parser.parse_timestamp. rewrite Ed, Et. simpl. eauto.
Qed.

Theorem parse_line_total st raw : exists st', parse_line st raw = Ok st'.
Proof.
  unfold Parser.parse_line.
  destruct (negb (truthy (rstrip (one_of [10; 13]) raw))); [eauto|].
  destruct (match_line (rstrip (one_of [10; 13]) raw)) as [g|] eqn:E.
  - destruct (match_line_timestamp _ _ E) as (d & t & s & c & dt & -> & Ets).
    simpl. rewrite Ets. simpl. destruct dt; simpl; eauto.
  - destruct (Parser.current_message st); [|eauto].
    destruct (truthy (strip (rstrip (one_of [10; 13]) raw))); eauto.
Qed.

Theorem parse_lines_total lines : forall st, exists st', parse_lines st lines = Ok st'.
Proof.
  induction lines as [|l lines IH]; simpl; intros st; [eauto|].
  destruct (parse_line_total st l) as [st1 ->]. simpl. apply IH.
Qed.

Theorem parse_chat_total lines : exists st, parse_chat lines = Ok st.
Proof.
  unfold Parser.parse_chat.
  destruct (parse_lines_total lines Parser.initial) as [st ->]. simpl. eauto.
Qed.

(** One iteration of the loop does what the kind of the line says. *)
Lemma parse_line_classify st raw :
  parse_line st raw = Ok (step st (classify raw)).
Proof.
  unfold Parser.parse_line, Parser.classify.
  destruct (negb (truthy (rstrip (one_of [10; 13]) raw))); [reflexivity|].
  destruct (match_line (rstrip (one_of [10; 13]) raw)) as [g|] eqn:E.
  - destruct (match_line_timestamp _ _ E) as (d & t & s & c & dt & -> & Ets).
    simpl. rewrite Ets. simpl. destruct dt; reflexivity.
  - destruct (truthy (strip (rstrip (one_of [10; 13]) raw))); simpl;
      destruct (Parser.current_message st) eqn:Ec;
      unfold Parser.extend; simpl; rewrite ?Ec; reflexivity.
Qed.

Lemma parse_lines_classify lines : forall st,
  parse_lines st lines = Ok (fold_left step (map classify lines) st).
Proof.
  induction lines as [|l lines IH]; simpl; intros st; [reflexivity|].
  rewrite parse_line_classify. simpl. apply IH.
Qed.

(** The parser returns, and every reference of its output list is in
    the store. *)
Theorem parse_chat_refs lines :
  exists st, parse_chat lines = Ok st
             /\ Forall (fun r => (r < length (Parser.store st))%nat)
                  (Parser.messages st).
Proof.
  unfold Parser.parse_chat. rewrite parse_lines_classify. simpl.
  eexists. split; [reflexivity|].
  rewrite store_flush.
  apply (represents_refs _ (fold_left advance (map classify lines) ([], None))).
  apply represents_fold. split; reflexivity.
Qed.

(** The parser returns, and its output list reads as [denote] says. *)
Theorem parse_chat_denote lines :
  exists st, parse_chat lines = Ok st
             /\ Parser.emitted st = denote (map classify lines).
Proof.
  unfold Parser.parse_chat. rewrite parse_lines_classify. simpl.
  eexists. split; [reflexivity|].
  apply represents_seal. apply represents_fold. split; reflexivity.
Qed.

Local Abbreviation line_of raw := (rstrip (one_of [10; 13]) raw).

Lemma classify_start raw m :
  classify raw = Start m ->
  exists g d t s c dt,
    match_line (line_of raw) = Some g
    /\ group 1 g = Some d /\ group 2 g = Some t
    /\ group 3 g = Some s /\ group 4 g = Some c
    /\ parse_timestamp d t = Ok (Some dt)
    /\ m = new_message dt s c.
Proof.
  unfold Parser.classify.
  destruct (negb (truthy (line_of raw))); [discriminate|].
  destruct (match_line (line_of raw)) as [g|] eqn:Eg.
  - destruct (group 1 g) as [d|] eqn:E1; [|discriminate].
    destruct (group 2 g) as [t|] eqn:E2; [|discriminate].
    destruct (group 3 g) as [s0|] eqn:E3; [|discriminate].
    destruct (group 4 g) as [c|] eqn:E4; [|discriminate].
    destruct (parse_timestamp d t) as [[dt|]|] eqn:E; try discriminate.
    intros H. inversion H. exists g, d, t, s0, c, dt.
    repeat split; assumption.
  - destruct (truthy (strip (line_of raw))); discriminate.
Qed.

Lemma classify_continuation raw :
  match_line (line_of raw) = None ->
  truthy (strip (line_of raw)) = true ->
  classify raw = Continuation (strip (line_of raw)).
Proof.
  intros Hm Ht. unfold Parser.classify. rewrite Hm, Ht.
  destruct (line_of raw); [discriminate | reflexivity].
Qed.

Lemma classify_continuation_inv raw t :
  classify raw = Continuation t ->
  match_line (line_of raw) = None /\ t = strip (line_of raw).
Proof.
  unfold Parser.classify.
  destruct (negb (truthy (line_of raw))); [discriminate|].
  destruct (match_line (line_of raw)) as [g|].
  - destruct (group 1 g); [|discriminate].
    destruct (group 2 g) as [t'|]; [|discriminate].
    destruct (group 3 g); [|discriminate].
    destruct (group 4 g); [|discriminate].
    destruct (parse_timestamp s t') as [[dt|]|]; discriminate.
  - destruct (truthy (strip (line_of raw))); [|discriminate].
    intros H. inversion H. auto.
Qed.

Lemma message_pattern_head l g :
  re_match message_pattern l = Some g ->
  exists c r, l = c :: r /\ (c = 8206 \/ c = 91).
Proof.
  intros H. apply re_match_sound in H. destruct H as [s' H].
  cbn [matches Parser.message_pattern Opt Lit] in H.
  destruct H as (s1 & g1 & [H1 | H1] & s2 & g2 & H2 & _).
  - destruct H1 as (c & -> & Hc & _). apply Z.eqb_eq in Hc.
    exists c, s1. auto.
  - destruct H1 as [-> _]. destruct H2 as (c & -> & Hc & _).
    apply Z.eqb_eq in Hc. exists c, s2. auto.
Qed.

(** A line of whitespace is not a message-start line. *)
Lemma blank_no_match l :
  truthy (strip l) = false -> match_line l = None.
Proof.
  intros H. apply strip_nil in H. unfold Parser.match_line.
  assert (Hl : lstrip is_mark l = l).
  { destruct l as [|c r]; [reflexivity|]. simpl in H.
    apply andb_prop in H. destruct H as [Hc _].
    apply lstrip_keep. now apply mark_not_space. }
  rewrite Hl.
  destruct (re_match message_pattern l) as [g|] eqn:E; [|reflexivity].
  destruct (message_pattern_head _ _ E) as (c & r & -> & Hc).
  simpl in H. apply andb_prop in H. destruct H as [Hs _].
  destruct Hc as [-> | ->]; discriminate.
Qed.

Lemma classify_blank raw :
  truthy (strip (line_of raw)) = false -> classify raw = Blank.
Proof.
  intros H. unfold Parser.classify. rewrite (blank_no_match _ H), H.
  now destruct (negb (truthy (line_of raw))).
Qed.

(** C3, as the parser has it: the parser does not sort; its output
    follows the log.  Whenever the lines that start a message carry
    timestamps that never go back, [parse_chat] returns and every
    message of its output is no later than every message after it. *)
Theorem parser_keeps_log_order lines :
  StronglySorted dt_le (start_dates lines) ->
  exists st, parse_chat lines = Ok st /\ chronological (Parser.emitted st).
Proof.
  intros H. destruct (parse_chat_denote lines) as (st & Hst & He).
  exists st. split; [exact Hst|]. rewrite He. now apply denote_sorted.
Qed.

Lemma message_start_classify raw m :
  message_start raw m -> classify raw = Start m.
Proof.
  intros (g & d & t & s0 & c & dt & Hg & H1 & H2 & H3 & H4 & Ht & ->).
  unfold Parser.classify. rewrite Hg, H1, H2, H3, H4, Ht.
  destruct (line_of raw) eqn:E; [|reflexivity].
  unfold Parser.match_line in Hg. simpl in Hg. discriminate.
Qed.


Local Abbreviation continuation_texts := (Parser.continuation_texts decimal_ext).

Lemma texts_of_classify lines :
  texts_of (map classify lines) = continuation_texts lines.
Proof.
  induction lines as [|raw lines IH]; [reflexivity|].
  unfold texts_of, Parser.continuation_texts in *. simpl. rewrite IH.
  f_equal. unfold Parser.classify. cbv zeta.
  destruct (truthy (line_of raw)) eqn:El; simpl.
  - destruct (match_line (line_of raw)) as [g|].
    + destruct (group 1 g); [|reflexivity].
      destruct (group 2 g); [|reflexivity].
      destruct (group 3 g); [|reflexivity].
      destruct (group 4 g); [|reflexivity].
      now destruct (parse_timestamp _ _) as [[dt|]|].
    + now destruct (truthy (strip (line_of raw))).
  - assert (Hb : truthy (strip (line_of raw)) = false)
      by (destruct (line_of raw); [reflexivity | discriminate]).
    now rewrite (blank_no_match _ Hb), Hb.
Qed.

Lemma classify_body body :
  (forall raw m, In raw body -> ~ message_start raw m) ->
  forallb (fun k => negb (is_start k)) (map classify body) = true.
Proof.
  intros H. apply forallb_forall. intros k Hk.
  apply in_map_iff in Hk. destruct Hk as (raw & <- & Hin).
  destruct (classify raw) as [|m| |text] eqn:E; try reflexivity.
  exfalso. apply (H raw m Hin). apply classify_start in E.
  destruct E as (g & d & t & s0 & c & dt & E). now exists g, d, t, s0, c, dt.
Qed.

(** What a start line adds to the output, and where: after the
    messages of the lines before it, the message it starts, continued
    by the lines up to the next start line, once and once more for
    each rejected line among them. *)
Lemma start_line_block pre start body post m0 :
  message_start start m0 ->
  (forall raw m, In raw body -> ~ message_start raw m) ->
  (post = [] \/ exists next rest m', post = next :: rest
                                     /\ message_start next m') ->
  exists st st1 st2 copies,
    parse_chat (pre ++ start :: body ++ post) = Ok st
    /\ parse_chat pre = Ok st1
    /\ parse_chat post = Ok st2
    /\ Parser.emitted st
       = Parser.emitted st1
         ++ repeat (grown m0 (continuation_texts body)) (S copies)
         ++ Parser.emitted st2.
Proof.
  intros Hs Hb Hpost.
  destruct (parse_chat_denote (pre ++ start :: body ++ post))
    as (st & Hst & He).
  destruct (parse_chat_denote pre) as (st1 & Hst1 & He1).
  destruct (parse_chat_denote post) as (st2 & Hst2 & He2).
  exists st, st1, st2, (rejections (map classify body)).
  repeat split; try assumption.
  rewrite He, He1, He2, map_app. simpl map. rewrite map_app.
  rewrite (message_start_classify _ _ Hs), <- texts_of_classify.
  apply denote_block; [now apply classify_body|].
  destruct Hpost as [-> | (next & rest & m' & -> & Hm')]; [now left|].
  right. simpl. rewrite (message_start_classify _ _ Hm'). eauto.
Qed.

(** The text and the flags of a message are those that its start line
    gives it; the continuation lines add to the text only. *)
Lemma start_line_text raw m0 texts g c :
  message_start raw m0 ->
  match_line (line_of raw) = Some g -> group 4 g = Some c ->
  content (grown m0 texts) = lstrip is_mark (strip c) ++ tail texts
  /\ is_media (grown m0 texts)
     = contains (lit "omitted") (lower (lstrip is_mark (strip c)))
  /\ is_deleted (grown m0 texts)
     = contains (lit "deleted") (lower (lstrip is_mark (strip c))).
Proof.
  intros (g' & d & t & s0 & c' & dt & Hg & _ & _ & _ & H4 & _ & ->) Hg' H4'.
  rewrite Hg in Hg'. inversion Hg'; subst g'.
  rewrite H4 in H4'. inversion H4'; subst c'.
  simpl. repeat split.
  destruct (contains (lit "deleted") (lower (lstrip is_mark (strip c))))
    eqn:E; [reflexivity|].
  simpl.
  destruct (contains (lit "this message was deleted")
              (lower (lstrip is_mark (strip c)))) eqn:E'; [|reflexivity].
  apply (contains_suffix (lit "this message was ") (lit "deleted")) in E'.
  congruence.
Qed.

(** C5, as the parser has it: [is_media] is decided once, on the text
    that follows the sender on the start line, and the continuation
    lines are joined to the content afterwards without changing it.
    First, every message of the output is the message [m0] that a
    start line of the log builds, continued by texts of continuation
    lines.  Second, a start line adds its message to the output at its
    own place: after the messages of the lines before it come copies
    of [m0] continued by the lines up to the next start line, then
    the messages of the lines from that start line on.  Third, the
    content of such a message is the stripped text of the start line
    followed by the continuation texts, and its [is_media] flag says
    whether that first text, in lower case, contains "omitted". *)
Theorem is_media_of_start_line :
  (forall lines st m,
      parse_chat lines = Ok st -> In m (Parser.emitted st) ->
      exists raw m0 texts,
        In raw lines /\ message_start raw m0 /\ m = grown m0 texts
        /\ Forall (fun t => exists raw', In raw' lines
                                         /\ match_line (line_of raw') = None
                                         /\ t = strip (line_of raw')) texts)
  /\ (forall pre start body post m0,
         message_start start m0 ->
         (forall raw m', In raw body -> ~ message_start raw m') ->
         (post = [] \/ exists next rest m', post = next :: rest
                                            /\ message_start next m') ->
         exists st st1 st2 copies,
           parse_chat (pre ++ start :: body ++ post) = Ok st
           /\ parse_chat pre = Ok st1
           /\ parse_chat post = Ok st2
           /\ Parser.emitted st
              = Parser.emitted st1
                ++ repeat (grown m0 (continuation_texts body)) (S copies)
                ++ Parser.emitted st2)
  /\ (forall raw m0 texts g c,
         message_start raw m0 ->
         match_line (line_of raw) = Some g -> group 4 g = Some c ->
         content (grown m0 texts) = lstrip is_mark (strip c) ++ tail texts
         /\ is_media (grown m0 texts)
            = contains (lit "omitted") (lower (lstrip is_mark (strip c)))).
Proof.
  split; [|split].
  - intros lines st m Hp Hm.
    destruct (parse_chat_denote lines) as (st' & Hst & He).
    rewrite Hp in Hst. inversion Hst; subst st'. rewrite He in Hm.
    pose proof (denote_from (map classify lines)) as Hf.
    rewrite Forall_forall in Hf.
    destruct (Hf _ Hm) as (m0 & texts & H0 & Ht & ->).
    apply in_map_iff in H0. destruct H0 as (raw & Hc & Hraw).
    exists raw, m0, texts. repeat split; auto.
    + apply classify_start in Hc.
      destruct Hc as (g & d & t & s0 & c & dt & E).
      now exists g, d, t, s0, c, dt.
    + eapply Forall_impl; [|exact Ht]. simpl. intros t' Hin.
      apply in_map_iff in Hin. destruct Hin as (raw' & Hc' & Hraw').
      apply classify_continuation_inv in Hc'. destruct Hc' as [Hn ->].
      now exists raw'.
  - intros pre start body post m0. apply start_line_block.
  - intros raw m0 texts g c Hs Hg H4.
    destruct (start_line_text raw m0 texts g c Hs Hg H4) as (Hc & Hm & _).
    now split.
Qed.

(** C10, as the parser has it.  A message-start line with a valid
    timestamp, then two non-blank lines that do not match, then the
    end of the log or another message-start line with a valid
    timestamp: the output is the output for the lines before, then
    exactly one message for the group, whose content is the three
    fragments joined by single spaces, then the output for the lines
    after.  A blank line leaves the state of the parser as it is. *)
Theorem continuation_lines_merge :
  (forall pre start c1 c2 post m,
      message_start start m ->
      continuation c1 -> continuation c2 ->
      (post = [] \/ exists next rest m', post = next :: rest
                                        /\ message_start next m') ->
      exists st st1 st2,
        parse_chat (pre ++ start :: c1 :: c2 :: post) = Ok st
        /\ parse_chat pre = Ok st1
        /\ parse_chat post = Ok st2
        /\ Parser.emitted st
           = Parser.emitted st1
             ++ [set_content m
                   (content m ++ lit " " ++ strip (line_of c1)
                    ++ lit " " ++ strip (line_of c2))]
             ++ Parser.emitted st2)
  /\ (forall st raw,
         truthy (strip (line_of raw)) = false -> parse_line st raw = Ok st).
Proof.
  split.
  - intros pre start c1 c2 post m Hs [Hn1 Ht1] [Hn2 Ht2] Hpost.
    destruct (parse_chat_denote (pre ++ start :: c1 :: c2 :: post))
      as (st & Hst & He).
    destruct (parse_chat_denote pre) as (st1 & Hst1 & He1).
    destruct (parse_chat_denote post) as (st2 & Hst2 & He2).
    exists st, st1, st2. repeat split; try assumption.
    rewrite He, He1, He2, map_app. simpl map.
    rewrite (message_start_classify _ _ Hs).
    rewrite (classify_continuation _ Hn1 Ht1).
    rewrite (classify_continuation _ Hn2 Ht2).
    rewrite denote_group.
    + unfold grown, tail. simpl. now rewrite app_nil_r.
    + destruct Hpost as [-> | (next & rest & m' & -> & Hm')]; [now left|].
      right. simpl. rewrite (message_start_classify _ _ Hm'). eauto.
  - intros st raw H. rewrite parse_line_classify.
    now rewrite (classify_blank _ H).
Qed.

Lemma year_of_timestamp date_str time_str dt :
  parse_timestamp date_str time_str = Ok (Some dt) ->
  exists m d y,
    parse_date date_str = Ok (m, d, y)
    /\ year dt = (if y <? 50 then 2000 + y else 1900 + y).
Proof.
  intros H. unfold Parser.parse_timestamp in H.
  destruct (parse_date date_str) as [[[m d] y]|] eqn:Ed; [|discriminate].
  simpl in H.
  destruct (parse_time time_str) as [[[hh mm] ss]|]; [|discriminate].
  simpl in H. inversion H as [Hn]. exists m, d, y. split; [reflexivity|].
  unfold new_datetime in Hn.
  match type of Hn with
  | (if ?b then _ else _) = _ => destruct b; [|discriminate]
  end.
  inversion Hn. reflexivity.
Qed.

(** C9: for every line that starts a message, the year of the message
    is [2000 + y] when the two-digit year [y] read from the date of the
    line is below 50 and [1900 + y] otherwise; in a log, 24, 99, 49 and
    50 give 2024, 1999, 2049 and 1950. *)
Theorem two_digit_year_pivot :
  (forall raw msg,
      message_start raw msg ->
      exists g date_str m d y,
        match_line (line_of raw) = Some g
        /\ group 1 g = Some date_str
        /\ parse_date date_str = Ok (m, d, y)
        /\ year (date msg) = (if y <? 50 then 2000 + y else 1900 + y))
  /\ (exists st,
         parse_chat
           [lit "[11/25/24, 09:00:00 AM] Alice: a";
            lit "[11/25/99, 09:00:00 AM] Alice: b";
            lit "[11/25/49, 09:00:00 AM] Alice: c";
            lit "[11/25/50, 09:00:00 AM] Alice: d"] = Ok st
         /\ map (fun m => year (date m)) (Parser.emitted st)
            = [2024; 1999; 2049; 1950]).
Proof.
  split.
  - intros raw msg (g & ds & ts & s0 & c & dt & Hg & H1 & _ & _ & _ & Ht & ->).
    destruct (year_of_timestamp _ _ _ Ht) as (m & d & y & Hd & Hy).
    exists g, ds, m, d, y. auto.
  - eexists. split; vm_compute; reflexivity.
Qed.

Lemma hour_of_timestamp date_str time_str dt :
  parse_timestamp date_str time_str = Ok (Some dt) ->
  exists time_match g1 h,
    re_match time_pattern time_str = Some time_match
    /\ group 1 time_match = Some g1 /\ int g1 = Ok h
    /\ match group 4 time_match with
       | None => hour dt = h
       | Some ampm =>
           (upper_ascii ampm = lit "PM"
            /\ hour dt = (if h =? 12 then 12 else h + 12))
           \/ (upper_ascii ampm = lit "AM"
               /\ hour dt = (if h =? 12 then 0 else h))
       end.
Proof.
  intros H. unfold Parser.parse_timestamp in H.
  destruct (parse_date date_str) as [[[m d] y]|]; [|discriminate].
  simpl in H. unfold Parser.parse_time in H.
  destruct (re_match time_pattern time_str) as [tm|] eqn:E;
    [|discriminate].
  exists tm. pose proof E as Hs. apply re_match_sound in Hs.
  destruct Hs as [s' Hs].
  cbn [matches Parser.time_pattern Parser.digit Parser.AM Parser.PM
         Rep12 Rep2 Opt Lit LitI] in Hs.
  break.
  all: cbn [method bind group Nat.eqb] in H |- *.
  all: match type of H with
       | context [int ?g] =>
           destruct (int g) as [h|] eqn:Eh; [|discriminate];
           exists g, h
       end.
  all: split; [reflexivity | split; [reflexivity | split; [exact Eh|]]].
  all: cbn [bind] in H.
  all: repeat match type of H with
         | context [int ?g] =>
             destruct (int g); cbn [bind] in H; [|discriminate]
         end.
  all: inversion H as [Hn]; unfold new_datetime in Hn.
  all: match type of Hn with
       | (if ?b then _ else _) = _ => destruct b; [|discriminate]
       end.
  all: inversion Hn; cbn [hour]; vm_compute upper_ascii;
    unfold Parser.to_24h; vm_compute truthy; vm_compute str_eqb;
    cbn [andb negb]; destruct (h =? 12) eqn:E12; cbn [negb];
    [apply Z.eqb_eq in E12|];
    first [ reflexivity
          | left; split; [reflexivity | first [reflexivity | lia]]
          | right; split; [reflexivity | first [reflexivity | lia]] ].
Qed.

(** C8: for every line that starts a message, the hour of the message
    is read from the time of the line as follows.  With no AM/PM
    marker it is the hour as written; with PM it is the written hour
    plus 12, and 12 stays 12; with AM it is the written hour, and 12
    becomes 0.  In a log, "12:15:00 AM", "12:15:00 PM", "07:30:00 PM"
    and "19:30:00" give 0, 12, 19 and 19. *)
Theorem meridiem_conversion :
  (forall raw msg,
      message_start raw msg ->
      exists g time_str time_match g1 h,
        match_line (line_of raw) = Some g
        /\ group 2 g = Some time_str
        /\ re_match time_pattern time_str = Some time_match
        /\ group 1 time_match = Some g1 /\ int g1 = Ok h
        /\ match group 4 time_match with
           | None => hour (date msg) = h
           | Some ampm =>
               (upper_ascii ampm = lit "PM"
                /\ hour (date msg) = (if h =? 12 then 12 else h + 12))
               \/ (upper_ascii ampm = lit "AM"
                   /\ hour (date msg) = (if h =? 12 then 0 else h))
           end)
  /\ (exists st,
         parse_chat
           [lit "[11/25/24, 12:15:00 AM] Alice: a";
            lit "[11/25/24, 12:15:00 PM] Alice: b";
            lit "[11/25/24, 07:30:00 PM] Alice: c";
            lit "[11/25/24, 19:30:00] Alice: d"] = Ok st
         /\ map (fun m => hour (date m)) (Parser.emitted st)
            = [0; 12; 19; 19]).
Proof.
  split.
  - intros raw msg (g & ds & ts & s0 & c & dt & Hg & _ & H2 & _ & _ & Ht & ->).
    destruct (hour_of_timestamp _ _ _ Ht) as (tm & g1 & h & Hm & H1 & Hi & Hh).
    exists g, ts, tm, g1, h. auto 10.
  - eexists. split; vm_compute; reflexivity.
Qed.

(** ** Further properties of the parser *)

Local Abbreviation rejected := (Parser.rejected decimal_ext).

Lemma classify_rejected raw : classify raw = Rejected -> rejected raw.
Proof.
  unfold Parser.classify.
  destruct (negb (truthy (line_of raw))); [discriminate|].
  destruct (match_line (line_of raw)) as [g|] eqn:Eg.
  - destruct (match_line_timestamp _ _ Eg) as (d & t & s0 & c & dt & -> & Et).
    simpl. rewrite Et. destruct dt; [discriminate|]. intros _.
    exists [(4%nat, c); (3%nat, s0); (2%nat, t); (1%nat, d)], d, t.
    repeat split; assumption.
  - destruct (truthy (strip (line_of raw))); discriminate.
Qed.

Lemma classify_not_start pre :
  (forall raw m, In raw pre -> ~ message_start raw m) ->
  forallb (fun k => negb (is_start k)) (map classify pre) = true.
Proof.
  intros H. apply forallb_forall. intros k Hk.
  apply in_map_iff in Hk. destruct Hk as (raw & <- & Hin).
  destruct (classify raw) as [|m| |text] eqn:E; try reflexivity.
  exfalso. apply (H raw m Hin). apply classify_start in E.
  destruct E as (g & d & t & s0 & c & dt & E). now exists g, d, t, s0, c, dt.
Qed.

Lemma classify_not_rejected lines :
  (forall raw, In raw lines -> ~ rejected raw) ->
  forallb (fun k => negb (is_rejected k)) (map classify lines) = true.
Proof.
  intros H. apply forallb_forall. intros k Hk.
  apply in_map_iff in Hk. destruct Hk as (raw & <- & Hin).
  destruct (classify raw) as [|m| |text] eqn:E; try reflexivity.
  exfalso. apply (H raw Hin). now apply classify_rejected.
Qed.

(** X1: [parse_chat] raises on no input: the uncaught [ValueError] of
    [int] and of the unpacking of the date, and the [AttributeError] of
    [time_match.group] on [None], cannot occur, because [int] and the
    second pattern only see what the first pattern has matched. *)
Theorem parse_chat_never_raises lines e : parse_chat lines <> Raise e.
Proof.
  destruct (parse_chat_total lines) as [st H]. rewrite H. discriminate.
Qed.

(** X2: A line that starts a message is a boundary: the messages of the
    lines before it are the ones the parser returns for those lines
    alone, and the messages from it on are the ones it returns for the
    rest alone. *)
Theorem start_line_is_boundary pre next rest m :
  message_start next m ->
  exists st st1 st2,
    parse_chat (pre ++ next :: rest) = Ok st
    /\ parse_chat pre = Ok st1
    /\ parse_chat (next :: rest) = Ok st2
    /\ Parser.emitted st = Parser.emitted st1 ++ Parser.emitted st2.
Proof.
  intros Hm.
  destruct (parse_chat_denote (pre ++ next :: rest)) as (st & Hst & He).
  destruct (parse_chat_denote pre) as (st1 & Hst1 & He1).
  destruct (parse_chat_denote (next :: rest)) as (st2 & Hst2 & He2).
  exists st, st1, st2. repeat split; try assumption.
  rewrite He, He1, He2, map_app. simpl map.
  rewrite (message_start_classify _ _ Hm). apply denote_app_start.
Qed.

(** X3: The lines before the first line that starts a message leave no
    trace in the output, whatever they are: continuation lines with no
    message to continue, and lines with a rejected timestamp. *)
Theorem lines_before_first_start_are_dropped pre rest :
  (forall raw m, In raw pre -> ~ message_start raw m) ->
  exists st st',
    parse_chat (pre ++ rest) = Ok st
    /\ parse_chat rest = Ok st'
    /\ Parser.emitted st = Parser.emitted st'.
Proof.
  intros H.
  destruct (parse_chat_denote (pre ++ rest)) as (st & Hst & He).
  destruct (parse_chat_denote rest) as (st' & Hst' & He').
  exists st, st'. repeat split; try assumption.
  rewrite He, He', map_app. apply denote_drop_prefix.
  now apply classify_not_start.
Qed.

(** X4: In a log without a rejected timestamp, the parser returns one
    message for each line that starts a message, in the order of the
    log and with the timestamp of that line. *)
Theorem one_message_per_start_line lines :
  (forall raw, In raw lines -> ~ rejected raw) ->
  exists st,
    parse_chat lines = Ok st
    /\ map date (Parser.emitted st) = start_dates lines.
Proof.
  intros H. destruct (parse_chat_denote lines) as (st & Hst & He).
  exists st. split; [exact Hst|]. rewrite He.
  apply denote_no_rejected. now apply classify_not_rejected.
Qed.

(** Every message of the output grew from a line of the log that
    starts a message. *)
Lemma emitted_from_start_line lines st m :
  parse_chat lines = Ok st -> In m (Parser.emitted st) ->
  exists raw m0 texts,
    In raw lines /\ message_start raw m0 /\ m = grown m0 texts.
Proof.
  intros Hp Hm. destruct (parse_chat_denote lines) as (st' & Hst & He).
  rewrite Hp in Hst. inversion Hst; subst st'. rewrite He in Hm.
  pose proof (denote_from (map classify lines)) as Hf.
  rewrite Forall_forall in Hf.
  destruct (Hf _ Hm) as (m0 & texts & H0 & _ & ->).
  apply in_map_iff in H0. destruct H0 as (raw & Hc & Hraw).
  exists raw, m0, texts. repeat split; try assumption.
  apply classify_start in Hc.
  destruct Hc as (g & d & t & s0 & c & dt & E). now exists g, d, t, s0, c, dt.
Qed.

Lemma message_pattern_sender l g :
  re_match message_pattern l = Some g ->
  exists s, group 3 g = Some s /\ forallb not_colon s = true.
Proof.
  intros H. apply re_match_sound in H. destruct H as [s' H].
  cbn [matches Parser.message_pattern Opt Lit Plus] in H.
  break.
  all: match goal with
       | Hd : matches date_re _ _ _ _, Ht : matches time_re _ _ _ _ |- _ =>
           pose proof (matches_no_grp date_re eq_refl _ _ _ _ Hd);
           pose proof (matches_no_grp time_re eq_refl _ _ _ _ Ht); subst
       end.
  all: match goal with
       | E : ?a ++ ?T = ?c :: ?b ++ ?T |- _ =>
           apply (app_inv_tail T a (c :: b)) in E; subst
       | E : ?c :: ?b ++ ?T = ?a ++ ?T |- _ =>
           apply (app_inv_tail T (c :: b) a) in E; subst
       end.
  all: eexists; split; [reflexivity|]; simpl;
    apply andb_true_intro; split; assumption.
Qed.

(** X5: The sender of every message of the output holds no colon and has
    no whitespace at either end. *)
Theorem sender_is_trimmed_without_colon lines st m :
  parse_chat lines = Ok st -> In m (Parser.emitted st) ->
  existsb (Z.eqb 58) (sender m) = false /\ trimmed (sender m).
Proof.
  intros Hp Hm.
  destruct (emitted_from_start_line _ _ _ Hp Hm)
    as (raw & m0 & texts & _ & Hs & ->).
  destruct Hs as (g & d & t & s0 & c & dt & Hg & _ & _ & H3 & _ & _ & ->).
  simpl. split; [|apply strip_trimmed].
  assert (exists l', re_match message_pattern l' = Some g) as [l' Hl].
  { unfold Parser.match_line in Hg.
    destruct (re_match message_pattern (lstrip is_mark (line_of raw))) eqn:E.
    - inversion Hg; subst. eauto.
    - eauto. }
  destruct (message_pattern_sender _ _ Hl) as (s1 & H3' & Hn).
  rewrite H3 in H3'. inversion H3'; subst s1.
  destruct (existsb (Z.eqb 58) (strip s0)) eqn:E; [|reflexivity].
  apply existsb_exists in E. destruct E as (x & Hx & Hx58).
  apply Z.eqb_eq in Hx58. subst x. apply strip_incl in Hx.
  rewrite forallb_forall in Hn. specialize (Hn _ Hx). discriminate.
Qed.

Lemma decimal_range c v :
  (forall c v, decimal_ext c = Some v -> 0 <= v <= 9) ->
  decimal c = Some v -> 0 <= v <= 9.
Proof.
  intros Hd. unfold Parser.decimal.
  destruct (c <? 128); [|apply Hd].
  destruct ((48 <=? c) && (c <=? 57)) eqn:E; [|discriminate].
  intros H. inversion H. lia.
Qed.

Ltac digits_in_range Hd :=
  repeat match goal with
    | H : is_digit ?c = true |- context [?c =? ?x] =>
        rewrite (digit_not_ascii c x H) by lia
    end;
  cbn -[Z.mul Z.add];
  repeat match goal with
    | H : is_digit ?c = true |- context [decimal ?c] =>
        let v := fresh "v" in
        let Hv := fresh "Hv" in
        destruct (digit_decimal c H) as [v Hv]; rewrite Hv;
        pose proof (decimal_range c v Hd Hv)
    end.

(** The year that [date_re] lets through is a number of two digits. *)
Lemma date_year_range d r g g' m dd y :
  (forall c v, decimal_ext c = Some v -> 0 <= v <= 9) ->
  matches date_re (d ++ r) r g g' ->
  parse_date d = Ok (m, dd, y) -> 0 <= y <= 99.
Proof.
  intros Hd H. apply (matches_tail date_re eq_refl _ _ _ _ []) in H.
  rewrite app_nil_r in H.
  cbn [matches Parser.date_re Parser.digit Rep12 Rep2 Opt Lit] in H. break.
  all: unfold Parser.parse_date; cbn -[Z.mul Z.add]; digits_in_range Hd;
    cbn -[Z.mul Z.add]; intros E;
    match type of E with
    | Ok (_, _, ?e) = _ => assert (e = y) by congruence
    end; lia.
Qed.

Lemma emitted_valid lines st m :
  parse_chat lines = Ok st -> In m (Parser.emitted st) ->
  valid_datetime (date m).
Proof.
  intros Hp Hm.
  destruct (emitted_from_start_line _ _ _ Hp Hm)
    as (raw & m0 & texts & _ & Hs & ->).
  destruct Hs as (g & d & t & s0 & c & dt & Hg & H1 & _ & _ & _ & Ht & ->).
  simpl. unfold Parser.parse_timestamp in Ht.
  destruct (parse_date d) as [[[mo da] y]|]; [|discriminate]. simpl in Ht.
  destruct (parse_time t) as [[[hh mm] ss]|]; [|discriminate]. simpl in Ht.
  inversion Ht as [Hn]. now apply new_datetime_valid in Hn.
Qed.

(** X6: Every timestamp of the output is one that [datetime] accepts; and
    when the decimal digits of the interpreter have the values 0 to 9,
    its year lies between 1950 and 2049. *)
Theorem emitted_timestamps_are_valid lines st m :
  parse_chat lines = Ok st -> In m (Parser.emitted st) ->
  valid_datetime (date m)
  /\ ((forall c v, decimal_ext c = Some v -> 0 <= v <= 9) ->
      1950 <= year (date m) <= 2049).
Proof.
  intros Hp Hm. split; [exact (emitted_valid _ _ _ Hp Hm)|].
  destruct (emitted_from_start_line _ _ _ Hp Hm)
    as (raw & m0 & texts & _ & Hs & ->).
  destruct Hs as (g & d & t & s0 & c & dt & Hg & H1 & _ & _ & _ & Ht & ->).
  simpl.
  - intros Hd.
    assert (exists l', re_match message_pattern l' = Some g) as [l' Hl].
    { unfold Parser.match_line in Hg.
      destruct (re_match message_pattern (lstrip is_mark (line_of raw))) eqn:E.
      - inversion Hg; subst. eauto.
      - eauto. }
    destruct (message_pattern_groups _ _ Hl)
      as (d' & t' & s' & c' & rd & rt & gd & gd' & gt & gt' & -> & Hdate & _).
    simpl in H1. inversion H1; subst d'.
    destruct (year_of_timestamp _ _ _ Ht) as (mo & da & y & Hpd & ->).
    pose proof (date_year_range _ _ _ _ _ _ _ Hd Hdate Hpd) as Hy.
    destruct (y <? 50) eqn:E; [apply Z.ltb_lt in E | apply Z.ltb_ge in E]; lia.
Qed.

(** X7: Formatting marks in front of a line that starts a message with its
    bracket change nothing: the line starts the same message. *)
Theorem leading_marks_are_ignored ms raw m :
  forallb is_mark ms = true ->
  hd_error raw = Some 91 ->
  message_start raw m -> message_start (ms ++ raw) m.
Proof.
  intros Hms Hhd (g & d & t & s0 & c & dt & Hg & H).
  exists g, d, t, s0, c, dt. split; [|exact H].
  destruct raw as [|b r]; [discriminate|]. inversion Hhd; subst b.
  rewrite rstrip_app_keep
    by (rewrite rstrip_cons_keep by reflexivity; discriminate).
  rewrite rstrip_cons_keep in * by reflexivity.
  unfold Parser.match_line in *.
  rewrite (lstrip_app_all _ _ _ Hms).
  simpl lstrip in *.
  revert Hg.
  match goal with
  | |- context [match ?X with _ => _ end] => destruct X
  end; [trivial | intros X; discriminate X].
Qed.

Lemma rejected_classify raw : rejected raw -> classify raw = Rejected.
Proof.
  intros (g & d & t & Hg & H1 & H2 & Ht). unfold Parser.classify.
  destruct (truthy (line_of raw)) eqn:El.
  - simpl. rewrite Hg, H1, H2, Ht.
    destruct (group 3 g); [destruct (group 4 g)|]; reflexivity.
  - assert (Hb : truthy (strip (line_of raw)) = false)
      by (destruct (line_of raw); [reflexivity | discriminate]).
    rewrite (blank_no_match _ Hb) in Hg. discriminate.
Qed.

(** X8: A line that is empty or holds only whitespace, its line end
    apart, can be taken out of the log: the parser returns the same
    messages without it. *)
Theorem blank_lines_leave_no_trace pre blank rest :
  strip (rstrip (one_of [10; 13]) blank) = [] ->
  exists st st',
    parse_chat (pre ++ blank :: rest) = Ok st
    /\ parse_chat (pre ++ rest) = Ok st'
    /\ Parser.emitted st = Parser.emitted st'.
Proof.
  intros H.
  destruct (parse_chat_denote (pre ++ blank :: rest)) as (st & Hst & He).
  destruct (parse_chat_denote (pre ++ rest)) as (st' & Hst' & He').
  exists st, st'. repeat split; try assumption.
  rewrite He, He', !map_app. simpl map.
  rewrite (classify_blank blank) by (now rewrite H).
  apply denote_drop_blank.
Qed.

(** X9: A line whose timestamp is rejected, at the end of a log, appends
    the last message of the output once more: the message that is
    pending is flushed before the timestamp is built, and stays
    pending when the timestamp is rejected. *)
Theorem rejected_line_repeats_last_message pre bad :
  rejected bad ->
  exists st st',
    parse_chat (pre ++ [bad]) = Ok st
    /\ parse_chat pre = Ok st'
    /\ Parser.emitted st
       = Parser.emitted st' ++ match rev (Parser.emitted st') with
                               | m :: _ => [m]
                               | [] => []
                               end.
Proof.
  intros H.
  destruct (parse_chat_denote (pre ++ [bad])) as (st & Hst & He).
  destruct (parse_chat_denote pre) as (st' & Hst' & He').
  exists st, st'. repeat split; try assumption.
  rewrite He, He', map_app. simpl map.
  rewrite (rejected_classify _ H). apply denote_snoc_rejected.
Qed.


(** X29: The [is_deleted] flag of the message that a start line adds
    to the output, at its own place and however many lines continue
    it, says whether the text of the start line, stripped and in lower
    case, contains "deleted": the second test, for "this message was
    deleted", never changes the flag, and continuation lines do not
    either. *)
Theorem is_deleted_is_one_test pre start body post m0 g c :
  message_start start m0 ->
  (forall raw m', In raw body -> ~ message_start raw m') ->
  (post = [] \/ exists next rest m', post = next :: rest
                                     /\ message_start next m') ->
  match_line (rstrip (one_of [10; 13]) start) = Some g ->
  group 4 g = Some c ->
  exists st st1 st2 copies m,
    parse_chat (pre ++ start :: body ++ post) = Ok st
    /\ parse_chat pre = Ok st1
    /\ parse_chat post = Ok st2
    /\ Parser.emitted st
       = Parser.emitted st1 ++ repeat m (S copies) ++ Parser.emitted st2
    /\ m = grown m0 (continuation_texts body)
    /\ is_deleted m
       = contains (lit "deleted") (lower (lstrip is_mark (strip c))).
Proof.
  intros Hs Hb Hpost Hg H4.
  destruct (start_line_block pre start body post m0 Hs Hb Hpost)
    as (st & st1 & st2 & copies & Hst & Hst1 & Hst2 & He).
  exists st, st1, st2, copies, (grown m0 (continuation_texts body)).
  repeat split; try assumption.
  exact (proj2 (proj2 (start_line_text start m0 _ g c Hs Hg H4))).
Qed.

End ParserFacts.

(** * The parser on the sample logs *)

Ltac not_a_start :=
  let g := fresh "g" in
  let Hg := fresh "Hg" in
  let H1 := fresh "H1" in
  let H2 := fresh "H2" in
  let Ht := fresh "Ht" in
  intros (g & ? & ? & ? & ? & ? & Hg & H1 & H2 & _ & _ & Ht & _);
  vm_compute in Hg;
  first [ discriminate Hg
        | inversion Hg; subst g; vm_compute in H1, H2;
          inversion H1; inversion H2; subst;
          vm_compute in Ht; discriminate Ht ].

Ltac not_rejected :=
  let g := fresh "g" in
  let Hg := fresh "Hg" in
  let H1 := fresh "H1" in
  let H2 := fresh "H2" in
  let Ht := fresh "Ht" in
  intros (g & ? & ? & Hg & H1 & H2 & Ht);
  vm_compute in Hg;
  first [ discriminate Hg
        | inversion Hg; subst g; vm_compute in H1, H2;
          inversion H1; inversion H2; subst;
          vm_compute in Ht; discriminate Ht ].

(** C2 on [log_invalid_date]: the pending message is appended to the
    output list before the date of the candidate is checked, and stays
    pending when the date is rejected; the end of the log appends it a
    second time.  The output list holds the same dictionary twice. *)
Theorem invalid_date_repeats_pending :
  exists st,
    parse log_invalid_date = Ok st
    /\ Parser.messages st = [0%nat; 0%nat]
    /\ Parser.emitted st = [alice_0900 "Hello"; alice_0900 "Hello"].
Proof.
  eexists. split; [vm_compute; reflexivity|]. split; reflexivity.
Qed.

(** C3 fails on [log_out_of_order]: the output keeps the order of the
    log, 09:00 before 08:50. *)
Lemma output_not_chronological :
  exists st,
    parse log_out_of_order = Ok st
    /\ Parser.emitted st = [alice_0900 "later"; bob_0850 "earlier"]
    /\ ~ chronological (Parser.emitted st).
Proof.
  eexists. split; [vm_compute; reflexivity|]. split; [reflexivity|].
  intros H. vm_compute in H. inversion H as [|a l _ Hall].
  inversion Hall as [|b l' Hle _]. discriminate Hle.
Qed.

Lemma parser_keeps_log_order_witness :
  StronglySorted dt_le (Parser.start_dates Parser.no_ext lower_ascii (map lit log_in_order))
  /\ exists st, parse log_in_order = Ok st /\ chronological (Parser.emitted st).
Proof.
  assert (H : StronglySorted dt_le
                (Parser.start_dates Parser.no_ext lower_ascii (map lit log_in_order))).
  { vm_compute. repeat constructor. }
  split; [exact H|].
  exact (parser_keeps_log_order Parser.no_ext lower_ascii _ H).
Defined.

(** C5 fails on [log_omitted_later]: the content of the message
    contains "omitted" and its [is_media] flag is false. *)
Lemma is_media_ignores_continuation :
  exists st m,
    parse log_omitted_later = Ok st
    /\ Parser.emitted st = [m]
    /\ content m = lit "Hello image omitted"
    /\ contains (lit "omitted") (lower_ascii (content m)) = true
    /\ is_media m = false.
Proof.
  do 2 eexists. split; [vm_compute; reflexivity|]. repeat split.
Qed.


Lemma start_line_alice_a :
  Parser.message_start Parser.no_ext lower_ascii
    (lit "[11/25/24, 09:00:00 AM] Alice: a") (alice_0900 "a").
Proof.
  do 6 eexists. repeat split; vm_compute; reflexivity.
Defined.

(** On [log_omitted_twice] the second and the third line add one
    message after the message of the first line; its content is
    "a omitted", as the content of the first message is, and its
    [is_media] flag is false. *)
Lemma is_media_of_start_line_witness :
  exists st st1 st2 copies,
    parse log_omitted_twice = Ok st
    /\ parse ["[11/25/24, 09:00:00 AM] Alice: a omitted"%string] = Ok st1
    /\ parse [] = Ok st2
    /\ Parser.emitted st
       = Parser.emitted st1
         ++ repeat (grown (alice_0900 "a")
                      (Parser.continuation_texts Parser.no_ext [lit "omitted"]))
              (S copies)
         ++ Parser.emitted st2
    /\ Parser.emitted st1
       = [mkMessage (mkDatetime 2024 11 25 9 0 0) (lit "Alice")
            (lit "a omitted") true false false]
    /\ content (grown (alice_0900 "a")
                  (Parser.continuation_texts Parser.no_ext [lit "omitted"]))
       = lit "a omitted"
    /\ is_media (grown (alice_0900 "a")
                   (Parser.continuation_texts Parser.no_ext [lit "omitted"]))
       = false.
Proof.
  destruct (is_media_of_start_line Parser.no_ext lower_ascii)
    as (_ & Hblock & Htext).
  assert (Hbody : forall raw m',
             In raw [lit "omitted"] ->
             ~ Parser.message_start Parser.no_ext lower_ascii raw m')
    by (intros raw m' [<-|[]]; not_a_start).
  destruct (Hblock [lit "[11/25/24, 09:00:00 AM] Alice: a omitted"]
              (lit "[11/25/24, 09:00:00 AM] Alice: a") [lit "omitted"] []
              (alice_0900 "a") start_line_alice_a Hbody (or_introl eq_refl))
    as (st & st1 & st2 & copies & H & H1 & H2 & He).
  destruct (Htext (lit "[11/25/24, 09:00:00 AM] Alice: a") (alice_0900 "a")
              (Parser.continuation_texts Parser.no_ext [lit "omitted"])
              groups_alice_a (lit "a") start_line_alice_a eq_refl eq_refl)
    as [Hc Hm].
  exists st, st1, st2, copies.
  split; [exact H|]. split; [exact H1|]. split; [exact H2|].
  split; [exact He|].
  split; [vm_compute in H1; inversion H1; reflexivity|].
  split; [rewrite Hc; reflexivity | rewrite Hm; reflexivity].
Defined.

(** C10 fails on both logs: the first group is in the output twice, the
    second not at all. *)
Lemma group_not_emitted_once :
  (exists st,
      parse log_group_then_invalid = Ok st
      /\ Parser.emitted st
         = [alice_0900 "Hello second third"; alice_0900 "Hello second third"])
  /\ (exists st, parse log_invalid_group = Ok st /\ Parser.emitted st = []).
Proof.
  split; eexists; (split; [vm_compute; reflexivity | reflexivity]).
Qed.

Lemma continuation_lines_merge_witness :
  Parser.message_start Parser.no_ext lower_ascii
    (lit "[11/25/24, 09:00:00 AM] Alice: Hello") (alice_0900 "Hello")
  /\ Parser.continuation Parser.no_ext (lit "second")
  /\ Parser.continuation Parser.no_ext (lit "  third  ")
  /\ Parser.message_start Parser.no_ext lower_ascii
       (lit "[11/25/24, 08:50:00 AM] Bob: next") (bob_0850 "next")
  /\ exists st st1 st2,
      parse log_groups = Ok st
      /\ parse ["[11/25/24, 08:50:00 AM] Bob: earlier"%string] = Ok st1
      /\ parse ["[11/25/24, 08:50:00 AM] Bob: next"%string] = Ok st2
      /\ Parser.emitted st
         = Parser.emitted st1 ++ [alice_0900 "Hello second third"]
           ++ Parser.emitted st2.
Proof.
  assert (Hs : Parser.message_start Parser.no_ext lower_ascii
                 (lit "[11/25/24, 09:00:00 AM] Alice: Hello")
                 (alice_0900 "Hello")).
  { do 6 eexists. repeat split; vm_compute; reflexivity. }
  assert (H1 : Parser.continuation Parser.no_ext (lit "second"))
    by (split; vm_compute; reflexivity).
  assert (H2 : Parser.continuation Parser.no_ext (lit "  third  "))
    by (split; vm_compute; reflexivity).
  assert (Hn : Parser.message_start Parser.no_ext lower_ascii
                 (lit "[11/25/24, 08:50:00 AM] Bob: next") (bob_0850 "next")).
  { do 6 eexists. repeat split; vm_compute; reflexivity. }
  repeat (split; [assumption|]).
  exact (proj1 (continuation_lines_merge Parser.no_ext lower_ascii)
           [lit "[11/25/24, 08:50:00 AM] Bob: earlier"]
           _ _ _ _ _ Hs H1 H2
           (or_intror (ex_intro _ _ (ex_intro _ [] (ex_intro _ _ (conj eq_refl Hn)))))).
Defined.

Lemma start_line_1999 :
  Parser.message_start Parser.no_ext lower_ascii
    (lit "[11/25/99, 07:30:00 PM] Alice: Hello")
    (mkMessage (mkDatetime 1999 11 25 19 30 0) (lit "Alice") (lit "Hello")
       false false false).
Proof.
  do 6 eexists. repeat split; vm_compute; reflexivity.
Defined.

Lemma two_digit_year_pivot_witness :
  exists g date_str m d y,
    Parser.match_line Parser.no_ext
      (rstrip (one_of [10; 13]) (lit "[11/25/99, 07:30:00 PM] Alice: Hello"))
    = Some g
    /\ group 1 g = Some date_str
    /\ Parser.parse_date Parser.no_ext date_str = Ok (m, d, y)
    /\ 1999 = (if y <? 50 then 2000 + y else 1900 + y).
Proof.
  exact (proj1 (two_digit_year_pivot Parser.no_ext lower_ascii)
           _ _ start_line_1999).
Defined.

Lemma meridiem_conversion_witness :
  exists g time_str time_match g1 h,
    Parser.match_line Parser.no_ext
      (rstrip (one_of [10; 13]) (lit "[11/25/99, 07:30:00 PM] Alice: Hello"))
    = Some g
    /\ group 2 g = Some time_str
    /\ re_match (Parser.time_pattern Parser.no_ext) time_str = Some time_match
    /\ group 1 time_match = Some g1
    /\ Parser.int Parser.no_ext g1 = Ok h
    /\ match group 4 time_match with
       | None => 19 = h
       | Some ampm =>
           (upper_ascii ampm = lit "PM"
            /\ 19 = (if h =? 12 then 12 else h + 12))
           \/ (upper_ascii ampm = lit "AM"
               /\ 19 = (if h =? 12 then 0 else h))
       end.
Proof.
  exact (proj1 (meridiem_conversion Parser.no_ext lower_ascii)
           _ _ start_line_1999).
Defined.

(** * Facts about the aggregator *)

Lemma str_eqb_eq a : forall b, str_eqb a b = true <-> a = b.
Proof.
  induction a as [|x a IH]; destruct b as [|y b]; simpl;
    try (split; [discriminate | discriminate]); [tauto|].
  rewrite andb_true_iff, Z.eqb_eq, IH. split.
  - intros [-> ->]. reflexivity.
  - intros H. inversion H. auto.
Qed.

Lemma str_eqb_refl a : str_eqb a a = true.
Proof. now apply str_eqb_eq. Qed.

Lemma str_eqb_neq a b : a <> b -> str_eqb a b = false.
Proof.
  intros H. destruct (str_eqb a b) eqn:E; [|reflexivity].
  apply str_eqb_eq in E. contradiction.
Qed.

Lemma Qltb_lt a b : Qltb a b = true <-> (a < b)%Q.
Proof. unfold Qltb, Qlt. apply Z.ltb_lt. Qed.

Section Dict.
Context {V : Type}.

Lemma get_set_same k (v : V) d : get k (set k v d) = Some v.
Proof.
  induction d as [|[k' v'] d IH]; simpl.
  - now rewrite str_eqb_refl.
  - destruct (str_eqb k k') eqn:E; simpl; rewrite E; [reflexivity | exact IH].
Qed.

Lemma get_set_other k k' (v : V) d : k' <> k -> get k' (set k v d) = get k' d.
Proof.
  intros H. induction d as [|[k0 v0] d IH]; simpl.
  - now rewrite (str_eqb_neq _ _ H).
  - destruct (str_eqb k k0) eqn:E; simpl.
    + apply str_eqb_eq in E. subst k0. now rewrite (str_eqb_neq _ _ H).
    + now rewrite IH.
Qed.

Lemma lookup_set_same dflt k (v : V) d : lookup dflt k (set k v d) = v.
Proof. unfold lookup. now rewrite get_set_same. Qed.

Lemma lookup_set_other dflt k k' (v : V) d :
  k' <> k -> lookup dflt k' (set k v d) = lookup dflt k' d.
Proof. intros H. unfold lookup. now rewrite get_set_other. Qed.
End Dict.

Lemma update_replied_samples people prev msg name :
  Person.response_times
    (lookup Person.fresh name (Stats.update_replied people prev msg))
  = Person.response_times (lookup Person.fresh name people).
Proof.
  unfold Stats.update_replied. destruct prev as [prev|]; [|reflexivity].
  destruct (negb (str_eqb (sender prev) (sender msg))
            && Qltb (Stats.time_diff msg prev) 30); [|reflexivity].
  destruct (get (normalize_name (sender prev)) people) as [p|] eqn:E;
    [|reflexivity].
  destruct (str_eqb name (normalize_name (sender prev))) eqn:En.
  - apply str_eqb_eq in En. subst name. rewrite lookup_set_same.
    unfold lookup. now rewrite E.
  - rewrite lookup_set_other; [reflexivity|].
    intros ->. now rewrite str_eqb_refl in En.
Qed.

Lemma process_system st msg : is_system msg = true -> Stats.process st msg = st.
Proof. intros H. unfold Stats.process. now rewrite H. Qed.

Lemma aggregate_snoc l msg :
  Stats.aggregate (l ++ [msg]) = Stats.process (Stats.aggregate l) msg.
Proof. unfold Stats.aggregate. now rewrite fold_left_app. Qed.

Lemma fold_system sys : forall st,
  forallb is_system sys = true -> fold_left Stats.process sys st = st.
Proof.
  induction sys as [|m sys IH]; simpl; intros st H; [reflexivity|].
  apply andb_prop in H. destruct H as [Hm Hs].
  rewrite (process_system _ _ Hm). now apply IH.
Qed.

(** The previous message is the last message that is not a system
    message. *)
Lemma prev_message_last pre prev sys :
  is_system prev = false -> forallb is_system sys = true ->
  Stats.prev_message (Stats.aggregate (pre ++ prev :: sys)) = Some prev.
Proof.
  intros Hp Hs. unfold Stats.aggregate. rewrite fold_left_app. simpl.
  rewrite (fold_system _ _ Hs). unfold Stats.process. now rewrite Hp.
Qed.


(** C6: when a message follows a message of another sender (system
    messages between the two are skipped) and the time from the
    timestamp of the earlier one to the timestamp of the later one,
    counted in seconds over the days and the clock fields, is more
    than 0 and less than 60 minutes, then that time in minutes,
    seconds over 60, is appended to the samples of the sender of the
    later message, and the samples of every other name, the previous
    sender among them, stay as they were. *)
Theorem response_sample_for_current_sender pre prev sys msg :
  is_system prev = false ->
  forallb is_system sys = true ->
  is_system msg = false ->
  sender prev <> sender msg ->
  let elapsed :=
    (toordinal (date msg) - toordinal (date prev)) * 86400
    + ((hour (date msg) * 3600 + minute (date msg) * 60 + second (date msg))
       - (hour (date prev) * 3600 + minute (date prev) * 60
          + second (date prev))) in
  0 < elapsed < 60 * 60 ->
  let before := Stats.aggregate (pre ++ prev :: sys) in
  let after := Stats.aggregate ((pre ++ prev :: sys) ++ [msg]) in
  samples after (normalize_name (sender msg))
  = samples before (normalize_name (sender msg)) ++ [(elapsed # 60)%Q]
  /\ (forall name,
         name <> normalize_name (sender msg) ->
         samples after name = samples before name)
  /\ (normalize_name (sender prev) <> normalize_name (sender msg) ->
      samples after (normalize_name (sender prev))
      = samples before (normalize_name (sender prev))).
Proof.
  intros Hp Hs Hm Hne elapsed He before after.
  assert (Hprev : Stats.prev_message before = Some prev)
    by now apply prev_message_last.
  assert (Hafter : after = Stats.process before msg) by apply aggregate_snoc.
  assert (Hothers : forall name,
             name <> normalize_name (sender msg) ->
             samples after name = samples before name).
  { intros name Hn. rewrite Hafter. unfold samples, Stats.process.
    rewrite Hm. simpl Stats.by_person.
    rewrite update_replied_samples, lookup_set_other by assumption.
    reflexivity. }
  split; [|split; [exact Hothers | intros Hd; now apply Hothers]].
  rewrite Hafter. unfold samples, Stats.process. rewrite Hm.
  simpl Stats.by_person.
  rewrite update_replied_samples, lookup_set_same, Hprev.
  unfold Stats.update_person. simpl Person.response_times.
  change (Stats.time_diff msg prev) with (elapsed # 60)%Q.
  assert (H0 : Qltb 0 (elapsed # 60) = true)
    by (unfold Qltb; simpl; apply Z.ltb_lt; lia).
  assert (H60 : Qltb (elapsed # 60) 60 = true)
    by (unfold Qltb; simpl; apply Z.ltb_lt; lia).
  rewrite H0, H60, (str_eqb_neq _ _ Hne). reflexivity.
Qed.

(** A(sender X, 23:55 on November 30) and B(sender Y, 00:05 on
    December 1): 600 seconds, a sample of ten minutes for Y and none
    for X. *)
Lemma response_sample_for_current_sender_witness :
  samples (Stats.aggregate [before_midnight "X" "A"; after_midnight "Y" "B"])
    (lit "Y")
  = [(600 # 60)%Q]
  /\ (600 # 60 == 10)%Q
  /\ samples (Stats.aggregate [before_midnight "X" "A"; after_midnight "Y" "B"])
       (lit "X")
     = [].
Proof.
  pose proof (response_sample_for_current_sender
                [] (before_midnight "X" "A") [] (after_midnight "Y" "B")
                eq_refl eq_refl eq_refl) as H.
  assert (Hne : sender (before_midnight "X" "A")
                <> sender (after_midnight "Y" "B"))
    by (vm_compute; discriminate).
  cbv zeta in H. specialize (H Hne).
  assert (He : (toordinal (date (after_midnight "Y" "B"))
                - toordinal (date (before_midnight "X" "A"))) * 86400
               + ((hour (date (after_midnight "Y" "B")) * 3600
                   + minute (date (after_midnight "Y" "B")) * 60
                   + second (date (after_midnight "Y" "B")))
                  - (hour (date (before_midnight "X" "A")) * 3600
                     + minute (date (before_midnight "X" "A")) * 60
                     + second (date (before_midnight "X" "A"))))
               = 600) by (vm_compute; reflexivity).
  rewrite He in H. destruct H as (Hy & _ & Hx); [lia|].
  split; [exact Hy|]. split; [reflexivity|].
  apply Hx. vm_compute. discriminate.
Defined.

(** ** Empty input *)

Lemma aggregate_system msgs :
  forallb is_system msgs = true -> Stats.aggregate msgs = Stats.initial.
Proof. apply fold_system. Qed.

(** With no message to count, [max] is applied to the items of an empty
    dictionary. *)
Lemma only_system_raises round1 list_of_set msgs :
  forallb is_system msgs = true ->
  Stats.calculate_stats round1 list_of_set msgs = Raise ValueError.
Proof.
  intros H. unfold Stats.calculate_stats. now rewrite (aggregate_system _ H).
Qed.

(** C1 on the empty list and on a list of one system message:
    [calculate_stats] raises [ValueError] and returns no statistics. *)
Theorem empty_input_raises round1 list_of_set :
  Stats.calculate_stats round1 list_of_set [] = Raise ValueError
  /\ Stats.calculate_stats round1 list_of_set [system_message]
     = Raise ValueError
  /\ Stats.calculate_stats round1 list_of_set (filter_last_365_days [])
     = Raise ValueError.
Proof. repeat split. Qed.

(** ** Aliases of one person *)

(** C4 on two messages of one person under two spellings, five minutes
    apart: the senders are compared as written, so a sample of five
    minutes and a reply are counted, both for "Aziz". *)
Theorem alias_counts_as_reply :
  normalize_name (sender aziz_0900) = lit "Aziz"
  /\ normalize_name (sender aziz_0905) = lit "Aziz"
  /\ map fst (Stats.by_person (Stats.aggregate [aziz_0900; aziz_0905]))
     = [lit "Aziz"]
  /\ samples (Stats.aggregate [aziz_0900; aziz_0905]) (lit "Aziz")
     = [Stats.time_diff aziz_0905 aziz_0900]
  /\ (Stats.time_diff aziz_0905 aziz_0900 == 5)%Q
  /\ replies (Stats.aggregate [aziz_0900; aziz_0905]) (lit "Aziz") = 1.
Proof. repeat split. Qed.


(** * Timestamps: the order of the fields and the elapsed time *)

Lemma days_before_year_step y :
  days_before_year (y + 1) = days_before_year y + 365 + b2z (is_leap y).
Proof.
  unfold days_before_year, is_leap, b2z.
  replace (y + 1 - 1) with y by lia.
  destruct (Z.eqb_spec (y mod 4) 0), (Z.eqb_spec (y mod 100) 0),
    (Z.eqb_spec (y mod 400) 0); simpl; Z.div_mod_to_equations; lia.
Qed.

Lemma days_before_year_mono y n :
  0 <= n -> days_before_year y + 365 * n <= days_before_year (y + n).
Proof.
  intros Hn. pattern n. apply natlike_ind; [ | | exact Hn]; clear n Hn.
  - replace (y + 0) with y by lia. lia.
  - intros n Hn IH. replace (y + Z.succ n) with (y + n + 1) by lia.
    rewrite days_before_year_step. unfold b2z. destruct (is_leap (y + n)); lia.
Qed.

Ltac table_lookups :=
  repeat match goal with
    | |- context [nth (Z.to_nat ?k) ?T 0] =>
        let v := eval vm_compute in (nth (Z.to_nat k) T 0) in
        change (nth (Z.to_nat k) T 0) with v
    | H : context [nth (Z.to_nat ?k) ?T 0] |- _ =>
        let v := eval vm_compute in (nth (Z.to_nat k) T 0) in
        change (nth (Z.to_nat k) T 0) with v in H
    end.

Lemma day_of_year_range t :
  valid_datetime t -> 1 <= day_of_year t <= 365 + b2z (is_leap (year t)).
Proof.
  unfold valid_datetime, day_of_year, days_before_month, days_in_month.
  intros (_ & Hm & Hd & _).
  assert (month t = 1 \/ month t = 2 \/ month t = 3 \/ month t = 4
          \/ month t = 5 \/ month t = 6 \/ month t = 7 \/ month t = 8
          \/ month t = 9 \/ month t = 10 \/ month t = 11 \/ month t = 12)
    as Hc by lia.
  repeat (destruct Hc as [Hc | Hc]); rewrite Hc in *; table_lookups;
    destruct (is_leap (year t)); cbn -[Z.add] in *; lia.
Qed.

Lemma day_of_year_mono a b :
  valid_datetime a -> valid_datetime b ->
  year a = year b -> month a < month b ->
  day_of_year a < day_of_year b.
Proof.
  unfold valid_datetime, day_of_year, days_before_month, days_in_month.
  intros (_ & Hma & Hda & _) (_ & Hmb & Hdb & _) Hy Hlt. rewrite Hy in *.
  assert (month a = 1 \/ month a = 2 \/ month a = 3 \/ month a = 4
          \/ month a = 5 \/ month a = 6 \/ month a = 7 \/ month a = 8
          \/ month a = 9 \/ month a = 10 \/ month a = 11 \/ month a = 12)
    as Ha by lia.
  assert (month b = 1 \/ month b = 2 \/ month b = 3 \/ month b = 4
          \/ month b = 5 \/ month b = 6 \/ month b = 7 \/ month b = 8
          \/ month b = 9 \/ month b = 10 \/ month b = 11 \/ month b = 12)
    as Hb by lia.
  repeat (destruct Ha as [Ha | Ha]); rewrite Ha in *;
    repeat (destruct Hb as [Hb | Hb]); rewrite Hb in *;
    try lia; table_lookups; destruct (is_leap (year b));
    cbn -[Z.add] in *; lia.
Qed.

Lemma toordinal_year_lt a b :
  valid_datetime a -> valid_datetime b ->
  year a < year b -> toordinal a < toordinal b.
Proof.
  intros Ha Hb Hlt.
  pose proof (day_of_year_range a Ha) as Ra.
  pose proof (day_of_year_range b Hb) as Rb.
  pose proof (days_before_year_step (year a)) as Hs.
  pose proof (days_before_year_mono (year a + 1) (year b - year a - 1)) as Hm.
  replace (year a + 1 + (year b - year a - 1)) with (year b) in Hm by lia.
  unfold toordinal. unfold day_of_year in *. lia.
Qed.

(** The timestamp later in the order of the fields is later in
    seconds, on the values that [datetime] accepts. *)
Lemma seconds_lt_of_fields a b :
  valid_datetime a -> valid_datetime b ->
  dt_leb b a = false -> seconds_since_origin a < seconds_since_origin b.
Proof.
  intros Ha Hb. unfold dt_leb, fields, lex_leb.
  rewrite andb_true_r.
  repeat (rewrite orb_false_iff || rewrite andb_false_iff
          || rewrite Z.ltb_ge || rewrite Z.eqb_neq).
  intros H.
  pose proof (toordinal_year_lt a b Ha Hb) as Hy.
  pose proof (day_of_year_mono a b Ha Hb) as Hm.
  destruct Ha as (_ & _ & _ & Hha & Hma & Hsa).
  destruct Hb as (_ & _ & _ & Hhb & Hmb & Hsb).
  unfold seconds_since_origin, toordinal, day_of_year in *.
  destruct (Z.lt_total (year a) (year b)) as [Hlt | [Heq | Hgt]];
    [specialize (Hy Hlt); lia | clear Hy | lia].
  specialize (Hm Heq). rewrite Heq in *.
  destruct (Z.lt_total (month a) (month b)) as [Hlt | [Heq' | Hgt]];
    [specialize (Hm Hlt); lia | clear Hm | lia].
  rewrite Heq' in *. lia.
Qed.

Lemma seconds_le_of_fields a b :
  valid_datetime a -> valid_datetime b ->
  dt_leb a b = true -> seconds_since_origin a <= seconds_since_origin b.
Proof.
  intros Ha Hb. unfold dt_leb, fields, lex_leb.
  rewrite andb_true_r.
  repeat (rewrite orb_true_iff || rewrite andb_true_iff
          || rewrite Z.ltb_lt || rewrite Z.eqb_eq).
  intros H.
  pose proof (toordinal_year_lt a b Ha Hb) as Hy.
  pose proof (day_of_year_mono a b Ha Hb) as Hm.
  destruct Ha as (_ & _ & _ & Hha & Hma & Hsa).
  destruct Hb as (_ & _ & _ & Hhb & Hmb & Hsb).
  unfold seconds_since_origin, toordinal, day_of_year in *.
  destruct (Z.lt_total (year a) (year b)) as [Hlt | [Heq | Hgt]];
    [specialize (Hy Hlt); lia | clear Hy | lia].
  specialize (Hm Heq). rewrite Heq in *.
  destruct (Z.lt_total (month a) (month b)) as [Hlt | [Heq' | Hgt]];
    [specialize (Hm Hlt); lia | clear Hm | lia].
  rewrite Heq' in *. lia.
Qed.

Lemma total_seconds_difference a b :
  total_seconds a b = seconds_since_origin a - seconds_since_origin b.
Proof. unfold total_seconds, seconds_since_origin. lia. Qed.

Lemma dt_leb_seconds a b :
  valid_datetime a -> valid_datetime b ->
  (dt_leb a b = true <-> seconds_since_origin a <= seconds_since_origin b).
Proof.
  intros Ha Hb. split.
  - intros H. exact (seconds_le_of_fields a b Ha Hb H).
  - intros H. destruct (dt_leb a b) eqn:E; [reflexivity|].
    pose proof (seconds_lt_of_fields b a Hb Ha E). lia.
Qed.

(** X10: On the values that [datetime] accepts, [a <= b] holds exactly when
    [(b - a).total_seconds()] is not negative: the comparison that the
    filter uses and the subtraction that the aggregator uses agree. *)
Theorem order_agrees_with_elapsed_time a b :
  valid_datetime a -> valid_datetime b ->
  (dt_leb a b = true <-> 0 <= total_seconds b a).
Proof.
  intros Ha Hb. rewrite total_seconds_difference, (dt_leb_seconds a b Ha Hb).
  lia.
Qed.

(** * The date-range filter *)

Lemma cutoff_valid : valid_datetime cutoff.
Proof. unfold valid_datetime. vm_compute. intuition discriminate. Qed.

Lemma end_date_valid : valid_datetime end_date.
Proof. unfold valid_datetime. vm_compute. intuition discriminate. Qed.

(** X11: [filter_last_365_days] keeps a message exactly when its timestamp
    is at most 31 622 399 seconds after midnight of 2024-11-25: the
    window runs through the last second of 2025-11-25 and spans 366
    days, one more than the name of the function says. *)
Theorem filter_window msgs m :
  valid_datetime (date m) ->
  (In m (filter_last_365_days msgs)
   <-> In m msgs /\ 0 <= total_seconds (date m) cutoff <= 366 * 86400 - 1).
Proof.
  intros Hv. unfold filter_last_365_days. rewrite filter_In, andb_true_iff.
  rewrite (dt_leb_seconds _ _ cutoff_valid Hv).
  rewrite (dt_leb_seconds _ _ Hv end_date_valid).
  rewrite !total_seconds_difference.
  assert (He : seconds_since_origin end_date
               = seconds_since_origin cutoff + 366 * 86400 - 1)
    by (vm_compute; reflexivity).
  rewrite He. intuition lia.
Qed.

(** X12: The filter keeps the order of its input: what it returns for a
    list in time order is in time order. *)
Theorem filter_keeps_time_order msgs :
  chronological msgs -> chronological (filter_last_365_days msgs).
Proof.
  unfold chronological, filter_last_365_days.
  induction msgs as [|a l IH]; simpl; intros H; [constructor|].
  apply StronglySorted_inv in H. destruct H as [Hs Ha].
  destruct (dt_leb cutoff (date a) && dt_leb (date a) end_date);
    [|now apply IH].
  simpl. constructor; [now apply IH|].
  rewrite Forall_forall in *. intros x Hx. apply in_map_iff in Hx.
  destruct Hx as (m & <- & Hm). apply filter_In in Hm.
  apply Ha. apply in_map. tauto.
Qed.

(** * Counters of the aggregator *)

Lemma aggregate_ind (P : list message -> Stats.t -> Prop) :
  P [] Stats.initial ->
  (forall l m, P l (Stats.aggregate l) ->
               P (l ++ [m]) (Stats.process (Stats.aggregate l) m)) ->
  forall msgs, P msgs (Stats.aggregate msgs).
Proof.
  intros H0 Hs msgs. induction msgs as [|m l IH] using rev_ind; [exact H0|].
  rewrite aggregate_snoc. now apply Hs.
Qed.

Lemma set_not_empty {V} k (v : V) d : set k v d <> [].
Proof.
  destruct d as [|[k' v'] d]; simpl; [discriminate|].
  destruct (str_eqb k k'); discriminate.
Qed.

Lemma sum_over_set {V} (f : V -> Z) dflt k v d :
  f dflt = 0 ->
  sum_over f (set k v d) = sum_over f d - f (lookup dflt k d) + f v.
Proof.
  intros H0. unfold lookup. induction d as [|[k' v'] d IH]; simpl.
  - lia.
  - destruct (str_eqb k k'); simpl; [lia|]. rewrite IH. lia.
Qed.

Lemma sum_over_set_present {V} (f : V -> Z) k v d p :
  get k d = Some p -> sum_over f (set k v d) = sum_over f d - f p + f v.
Proof.
  induction d as [|[k' v'] d IH]; simpl; [discriminate|].
  destruct (str_eqb k k'); simpl.
  - intros E. inversion E. lia.
  - intros E. rewrite (IH E). lia.
Qed.

Lemma sum_over_update_replied (f : Person.t -> Z) people prev m :
  (forall p, f (Person.replied p) = f p) ->
  sum_over f (Stats.update_replied people prev m) = sum_over f people.
Proof.
  intros Hf. unfold Stats.update_replied. destruct prev as [prev|]; [|reflexivity].
  destruct (negb (str_eqb (sender prev) (sender m))
            && Qltb (Stats.time_diff m prev) 30); [|reflexivity].
  destruct (get (normalize_name (sender prev)) people) as [p|] eqn:E;
    [|reflexivity].
  rewrite (sum_over_set_present f _ _ _ _ E), Hf. lia.
Qed.

Lemma total_incr_at i : forall l,
  (i < length l)%nat -> total (incr_at i l) = total l + 1.
Proof.
  induction i as [|i IH]; intros [|x l] H; simpl in *; try lia.
  rewrite IH by lia. lia.
Qed.

Lemma length_incr_at i : forall l, length (incr_at i l) = length l.
Proof.
  induction i as [|i IH]; intros [|x l]; simpl; try reflexivity.
  now rewrite IH.
Qed.

Lemma len_app {A} (a b : list A) : Stats.len (a ++ b) = Stats.len a + Stats.len b.
Proof. unfold Stats.len. rewrite length_app. lia. Qed.

Lemma forallb_system_counted l :
  forallb is_system l = true <-> filter counted l = [].
Proof.
  unfold counted. induction l as [|m l IH]; simpl; [tauto|].
  destruct (is_system m); simpl; [exact IH|]. split; discriminate.
Qed.

Lemma daily_counts_empty msgs :
  Stats.daily_counts (Stats.aggregate msgs) = []
  <-> forallb is_system msgs = true.
Proof.
  pattern msgs, (Stats.aggregate msgs). apply aggregate_ind; clear msgs.
  - simpl. tauto.
  - intros l m IH. rewrite forallb_app. simpl. rewrite andb_true_r.
    unfold Stats.process. destruct (is_system m); simpl.
    + rewrite andb_true_r. exact IH.
    + rewrite andb_false_r. split; [|discriminate].
      intros H. now apply set_not_empty in H.
Qed.

Lemma total_messages_count msgs :
  Stats.total_messages (Stats.aggregate msgs) = Stats.len (filter counted msgs).
Proof.
  pattern msgs, (Stats.aggregate msgs). apply aggregate_ind; clear msgs.
  - reflexivity.
  - intros l m IH. rewrite filter_app, len_app. unfold Stats.process, counted.
    simpl. destruct (is_system m); simpl; rewrite IH; unfold counted;
      unfold Stats.len; simpl; lia.
Qed.

(** ** Finalization *)

Lemma div_by a n : 0 < n -> Stats.div a (inject_Z n) = Ok (a / inject_Z n)%Q.
Proof.
  intros H. unfold Stats.div. simpl.
  destruct (Z.eqb_spec n 0); [lia | reflexivity].
Qed.

Lemma ratio_ok round1 a n : exists q, Stats.ratio round1 a n = Ok q.
Proof.
  unfold Stats.ratio. destruct (Z.ltb_spec 0 n) as [H|H]; [|eauto].
  rewrite (div_by _ _ H). simpl. eauto.
Qed.

(** With its counters in place, a dictionary is finalized without an
    error, whatever its numbers are. *)
Lemma finalize_ok round1 list_of_set p :
  Person.by_hour p <> [] -> Person.by_day p <> [] ->
  exists f, Stats.finalize round1 list_of_set p = Ok f /\ guarded p f.
Proof.
  intros Hh Hd. unfold Stats.finalize, guarded. cbv zeta.
  destruct (ratio_ok round1 (Person.replied_to_count p) (Person.messages p))
    as [e ->].
  destruct (ratio_ok round1 (Person.media p) (Person.messages p)) as [r ->].
  destruct (Person.by_hour p) as [|h0 hs]; [contradiction|].
  destruct (Person.by_day p) as [|d0 ds]; [contradiction|].
  cbn [Stats.index_of_max].
  destruct (Z.ltb_spec 0 (Person.messages p - Person.media p)) as [Ht|Ht].
  - rewrite (div_by _ _ Ht).
    destruct (Person.response_times p) as [|x l].
    + cbn [bind fst snd]. eexists. split; [reflexivity|].
      cbn [Final.avg_chars Final.avg_response Final.fastest_response].
      split; [lia|]. split; [auto | intros H; now contradiction H].
    + assert (Hl : 0 < Stats.len (x :: l))
        by (unfold Stats.len; simpl length; lia).
      rewrite (div_by _ _ Hl). cbn [bind fst snd Stats.Qmin].
      eexists. split; [reflexivity|].
      cbn [Final.avg_chars Final.avg_response Final.fastest_response].
      split; [lia|]. split; [discriminate | intros _; split; discriminate].
  - destruct (Person.response_times p) as [|x l].
    + cbn [bind fst snd]. eexists. split; [reflexivity|].
      cbn [Final.avg_chars Final.avg_response Final.fastest_response].
      split; [reflexivity|]. split; [auto | intros H; now contradiction H].
    + assert (Hl : 0 < Stats.len (x :: l))
        by (unfold Stats.len; simpl length; lia).
      rewrite (div_by _ _ Hl). cbn [bind fst snd Stats.Qmin].
      eexists. split; [reflexivity|].
      cbn [Final.avg_chars Final.avg_response Final.fastest_response].
      split; [reflexivity|].
      split; [discriminate | intros _; split; discriminate].
Qed.

Lemma Forall_set {V} (P : V -> Prop) k v (d : dict V) :
  Forall (fun kv => P (snd kv)) d -> P v ->
  Forall (fun kv => P (snd kv)) (set k v d).
Proof.
  intros Hd Hv. induction d as [|[k' v'] d IH]; simpl.
  - now repeat constructor.
  - inversion Hd; subst. destruct (str_eqb k k'); constructor; auto.
Qed.

Lemma Forall_get {V} (P : V -> Prop) k (d : dict V) v :
  Forall (fun kv => P (snd kv)) d -> get k d = Some v -> P v.
Proof.
  intros Hd. induction d as [|[k' v'] d IH]; simpl; [discriminate|].
  inversion Hd; subst. destruct (str_eqb k k'); [|auto].
  intros E. inversion E; subst. assumption.
Qed.

(** Every dictionary of [by_person] keeps its 24 and its 7 counters. *)
Lemma people_full_counters msgs :
  Forall (fun kv => full_counters (snd kv))
    (Stats.by_person (Stats.aggregate msgs)).
Proof.
  pattern msgs, (Stats.aggregate msgs). apply aggregate_ind; clear msgs.
  - constructor.
  - intros l m IH. unfold Stats.process. destruct (is_system m); [exact IH|].
    simpl Stats.by_person.
    set (people := set _ _ _).
    assert (Hp : Forall (fun kv => full_counters (snd kv)) people).
    { apply Forall_set; [exact IH|].
      assert (Hf : full_counters
                     (lookup Person.fresh (normalize_name (sender m))
                        (Stats.by_person (Stats.aggregate l)))).
      { unfold lookup.
        destruct (get _ (Stats.by_person (Stats.aggregate l))) as [q|] eqn:E.
        - exact (Forall_get _ _ _ _ IH E).
        - split; reflexivity. }
      destruct Hf as [H24 H7]. split; simpl; now rewrite length_incr_at. }
    clearbody people. unfold Stats.update_replied.
    destruct (Stats.prev_message (Stats.aggregate l)) as [prev|]; [|exact Hp].
    destruct (negb (str_eqb (sender prev) (sender m))
              && Qltb (Stats.time_diff m prev) 30); [|exact Hp].
    destruct (get (normalize_name (sender prev)) people) as [q|] eqn:E;
      [|exact Hp].
    apply Forall_set; [exact Hp|]. exact (Forall_get _ _ _ _ Hp E).
Qed.

Lemma finalize_all_ok round1 list_of_set people :
  Forall (fun kv => full_counters (snd kv)) people ->
  exists finals,
    Stats.finalize_all round1 list_of_set people = Ok finals
    /\ Forall2 (fun kv kf =>
                  fst kf = fst kv
                  /\ Stats.finalize round1 list_of_set (snd kv) = Ok (snd kf)
                  /\ guarded (snd kv) (snd kf))
         people finals.
Proof.
  induction people as [|[name p] people IH]; intros H.
  - exists []. split; [reflexivity | constructor].
  - inversion H as [|? ? [H24 H7] Hrest]; subst. simpl in H24, H7.
    destruct (finalize_ok round1 list_of_set p) as (f & Hf & Hg).
    + intros E. rewrite E in H24. discriminate.
    + intros E. rewrite E in H7. discriminate.
    + destruct (IH Hrest) as (finals & Hall & H2).
      exists ((name, f) :: finals). split.
      * simpl. rewrite Hf, Hall. reflexivity.
      * constructor; [|exact H2]. simpl. auto.
Qed.

(** [calculate_stats] past the finalization loop. *)
Lemma calculate_stats_finalized round1 (list_of_set : listing) msgs :
  exists people,
    Stats.finalize_all round1 list_of_set
      (Stats.by_person (Stats.aggregate msgs)) = Ok people
    /\ Stats.calculate_stats round1 list_of_set msgs
       = (most_active_day <-
            Stats.max_item (Stats.daily_counts (Stats.aggregate msgs)) ;;
          Ok (Stats.mkResult
                (Stats.total_messages (Stats.aggregate msgs))
                (Stats.total_media (Stats.aggregate msgs))
                (Stats.total_chars (Stats.aggregate msgs))
                people
                (Stats.by_month (Stats.aggregate msgs))
                (Stats.by_hour (Stats.aggregate msgs))
                (Stats.by_day_of_week (Stats.aggregate msgs))
                (Stats.daily_counts (Stats.aggregate msgs))
                (Stats.longest_message (Stats.aggregate msgs))
                (list_of_set (Stats.active_days (Stats.aggregate msgs)))
                most_active_day
                (Stats.len
                   (list_of_set (Stats.active_days (Stats.aggregate msgs)))))).
Proof.
  destruct (finalize_all_ok round1 list_of_set _ (people_full_counters msgs))
    as (people & Hall & _).
  exists people. split; [exact Hall|].
  unfold Stats.calculate_stats. cbv zeta. rewrite Hall. reflexivity.
Qed.

(** C7: the finalization loop raises on no input.  For every list of
    messages it finalizes every person of [by_person], in order and
    under the same name, and these are the people of the statistics
    that [calculate_stats] returns; for each of them [avg_chars] is 0
    when the person has no message other than media, and
    [avg_response] and [fastest_response] are [None] when no response
    time was collected for the person, and only then.  In the model a
    division by zero and [min] of an empty list raise, so that the
    guards of lines 263 and 265 are what keeps the loop from them. *)
Theorem finalization_guards round1 list_of_set msgs :
  exists people,
    Stats.finalize_all round1 list_of_set
      (Stats.by_person (Stats.aggregate msgs)) = Ok people
    /\ (forall res,
          Stats.calculate_stats round1 list_of_set msgs = Ok res ->
          Stats.r_by_person res = people)
    /\ Forall2 (fun kv kf =>
                  fst kf = fst kv
                  /\ Stats.finalize round1 list_of_set (snd kv) = Ok (snd kf)
                  /\ guarded (snd kv) (snd kf))
         (Stats.by_person (Stats.aggregate msgs)) people.
Proof.
  destruct (finalize_all_ok round1 list_of_set _ (people_full_counters msgs))
    as (people & Hall & H2).
  exists people. split; [exact Hall|]. split; [|exact H2].
  intros res. unfold Stats.calculate_stats. cbv zeta. rewrite Hall.
  cbn [bind]. destruct (Stats.max_item _) as [best|]; [|discriminate].
  cbn [bind]. intros E. inversion E. reflexivity.
Qed.

(** A person with one message, a medium: both guards are met. *)
Lemma finalization_guards_witness :
  exists f,
    Stats.finalize_all Stats.round1_exact Stats.in_order
      (Stats.by_person (Stats.aggregate [media_0900])) = Ok [(lit "Alice", f)]
    /\ (forall res,
          Stats.calculate_stats Stats.round1_exact Stats.in_order [media_0900]
          = Ok res ->
          Stats.r_by_person res = [(lit "Alice", f)])
    /\ Final.messages f = 1 /\ Final.media f = 1
    /\ Final.avg_chars f = 0
    /\ Final.avg_response f = None
    /\ Final.fastest_response f = None.
Proof.
  destruct (finalization_guards Stats.round1_exact Stats.in_order [media_0900])
    as (people & Hall & Hres & H2).
  inversion H2 as [|kv kf l l' (_ & _ & Ha & Hr & _) Hrest E1 E2].
  inversion Hrest; subst.
  match type of Hall with _ = Ok [?kf] => exists (snd kf) end.
  vm_compute in Hall. inversion Hall; subst.
  split; [reflexivity|]. split; [exact Hres|].
  split; [reflexivity|]. split; [reflexivity|].
  split; [apply Ha; reflexivity|]. apply Hr. reflexivity.
Defined.

(** X13: [calculate_stats] returns statistics exactly when some message of
    its input is not a system message, and then counts at least one
    message; on any other input it raises [ValueError]. *)
Theorem statistics_unless_nothing_counts round1 list_of_set msgs :
  if forallb is_system msgs
  then Stats.calculate_stats round1 list_of_set msgs = Raise ValueError
  else exists res,
         Stats.calculate_stats round1 list_of_set msgs = Ok res
         /\ 1 <= Stats.r_total_messages res.
Proof.
  destruct (forallb is_system msgs) eqn:E; [now apply only_system_raises|].
  destruct (calculate_stats_finalized round1 list_of_set msgs)
    as (people & _ & ->).
  destruct (Stats.daily_counts (Stats.aggregate msgs)) as [|x d] eqn:Ed.
  - apply daily_counts_empty in Ed. congruence.
  - simpl. eexists. split; [reflexivity|]. simpl.
    rewrite total_messages_count.
    destruct (filter counted msgs) as [|m l] eqn:Ef.
    + apply forallb_system_counted in Ef. congruence.
    + unfold Stats.len. simpl length. lia.
Qed.

(** X14: The counters of the people add up to the counters of the chat:
    messages, media and characters. *)
Theorem people_sum_to_totals msgs :
  let st := Stats.aggregate msgs in
  sum_over Person.messages (Stats.by_person st) = Stats.total_messages st
  /\ sum_over Person.media (Stats.by_person st) = Stats.total_media st
  /\ sum_over Person.total_chars (Stats.by_person st) = Stats.total_chars st.
Proof.
  cbv zeta. pattern msgs, (Stats.aggregate msgs). apply aggregate_ind; clear msgs.
  - repeat split.
  - intros l m (H1 & H2 & H3). unfold Stats.process.
    destruct (is_system m); [repeat split; assumption|]. simpl.
    rewrite !sum_over_update_replied by reflexivity.
    rewrite !(sum_over_set _ Person.fresh) by reflexivity. simpl.
    destruct (is_media m); simpl; repeat split; lia.
Qed.

Lemma weekday_index d : (Z.to_nat ((weekday d + 1) mod 7) < 7)%nat.
Proof.
  pose proof (Z.mod_pos_bound (weekday d + 1) 7 eq_refl). lia.
Qed.

(** X15: Every message that is counted is counted once in each breakdown:
    the counts of the days, of the months and of the days of the week
    each add up to [total_messages], the number of messages that are
    not system messages. *)
Theorem breakdowns_sum_to_total msgs :
  let st := Stats.aggregate msgs in
  Stats.total_messages st = Stats.len (filter counted msgs)
  /\ sum_over (fun n => n) (Stats.daily_counts st) = Stats.total_messages st
  /\ sum_over (fun n => n) (Stats.by_month st) = Stats.total_messages st
  /\ total (Stats.by_day_of_week st) = Stats.total_messages st.
Proof.
  cbv zeta. split; [apply total_messages_count|].
  assert (H : let st := Stats.aggregate msgs in
              length (Stats.by_day_of_week st) = 7%nat
              /\ sum_over (fun n => n) (Stats.daily_counts st)
                 = Stats.total_messages st
              /\ sum_over (fun n => n) (Stats.by_month st)
                 = Stats.total_messages st
              /\ total (Stats.by_day_of_week st) = Stats.total_messages st);
    [|cbv zeta in H; tauto].
  cbv zeta. pattern msgs, (Stats.aggregate msgs). apply aggregate_ind; clear msgs.
  - repeat split.
  - intros l m (H0 & H1 & H2 & H3). unfold Stats.process.
    destruct (is_system m); [repeat split; assumption|]. simpl.
    rewrite length_incr_at.
    rewrite !(sum_over_set (fun n => n) 0) by reflexivity.
    rewrite total_incr_at by (rewrite H0; apply weekday_index).
    repeat split; lia.
Qed.

Lemma by_hour_total msgs :
  (forall m, In m msgs -> 0 <= hour (date m) <= 23) ->
  length (Stats.by_hour (Stats.aggregate msgs)) = 24%nat
  /\ total (Stats.by_hour (Stats.aggregate msgs))
     = Stats.total_messages (Stats.aggregate msgs).
Proof.
  pattern msgs, (Stats.aggregate msgs). apply aggregate_ind; clear msgs.
  - repeat split.
  - intros l m IH H.
    destruct IH as [H0 H1]; [intros x Hx; apply H, in_or_app; now left|].
    assert (Hm : 0 <= hour (date m) <= 23)
      by (apply H, in_or_app; right; now left).
    unfold Stats.process.
    destruct (is_system m); [split; assumption|]. simpl.
    rewrite length_incr_at, total_incr_at by lia. split; lia.
Qed.

(** X16: When the hour of every message lies between 0 and 23, as the hour
    of a [datetime] does, the counts of the hours add up to
    [total_messages] too. *)
Theorem hours_sum_to_total msgs :
  (forall m, In m msgs -> 0 <= hour (date m) <= 23) ->
  total (Stats.by_hour (Stats.aggregate msgs))
  = Stats.total_messages (Stats.aggregate msgs).
Proof. intros H. exact (proj2 (by_hour_total msgs H)). Qed.

(** ** The first largest entry *)

Lemma max_from_split d : forall pre0 mid best,
  (forall kv, In kv pre0 -> snd kv < snd best) ->
  (forall kv, In kv mid -> snd kv <= snd best) ->
  exists pre post,
    pre0 ++ best :: mid ++ d = pre ++ Stats.max_from best d :: post
    /\ (forall kv, In kv pre -> snd kv < snd (Stats.max_from best d))
    /\ (forall kv, In kv post -> snd kv <= snd (Stats.max_from best d)).
Proof.
  induction d as [|x d IH]; intros pre0 mid best Hpre Hmid; simpl.
  - exists pre0, mid. rewrite app_nil_r. auto.
  - destruct (snd best <? snd x) eqn:E.
    + apply Z.ltb_lt in E.
      destruct (IH (pre0 ++ best :: mid) [] x) as (pre & post & Heq & H1 & H2).
      * intros kv Hkv. apply in_app_or in Hkv.
        destruct Hkv as [Hkv|[<-|Hkv]];
          [specialize (Hpre _ Hkv) | | specialize (Hmid _ Hkv)]; lia.
      * intros kv [].
      * exists pre, post. split; [|auto]. rewrite <- Heq, <- app_assoc.
        reflexivity.
    + apply Z.ltb_ge in E.
      destruct (IH pre0 (mid ++ [x]) best) as (pre & post & Heq & H1 & H2).
      * exact Hpre.
      * intros kv Hkv. apply in_app_or in Hkv.
        destruct Hkv as [Hkv|[<-|[]]]; [now apply Hmid | exact E].
      * exists pre, post. split; [|auto]. rewrite <- Heq, <- app_assoc.
        reflexivity.
Qed.

(** X17: [most_active_day] is the first of the days with the largest count,
    in the order in which the days were first met: every day before it
    has a smaller count and no day after it has a larger one. *)
Theorem most_active_day_is_first_maximum round1 list_of_set msgs res :
  Stats.calculate_stats round1 list_of_set msgs = Ok res ->
  exists pre post,
    Stats.r_daily_counts res = pre ++ Stats.r_most_active_day res :: post
    /\ (forall kv, In kv pre -> snd kv < snd (Stats.r_most_active_day res))
    /\ (forall kv, In kv post -> snd kv <= snd (Stats.r_most_active_day res)).
Proof.
  destruct (calculate_stats_finalized round1 list_of_set msgs)
    as (people & _ & ->).
  destruct (Stats.daily_counts (Stats.aggregate msgs)) as [|x d] eqn:Ed;
    [discriminate|].
  simpl. intros H. inversion H; subst res; clear H. simpl.
  destruct (max_from_split d [] [] x) as (pre & post & Heq & H1 & H2);
    [intros kv [] | intros kv [] |].
  exists pre, post. auto.
Qed.



(** ** Names *)

(** X19: No short name of the table is itself a key of the table:
    normalizing a name twice gives what normalizing it once gives. *)
Theorem normalize_name_idempotent name :
  normalize_name (normalize_name name) = normalize_name name.
Proof.
  assert (H : forall n, normalize_name n
              = lookup n n
                  [ (lit "Abanob Nashat", lit "Abanob");
                    (lit "Fady Barsoum", lit "Fady B");
                    (lit "Fady Henen", lit "Fady H");
                    (lit "David Hana", lit "David");
                    (lit "Meena Ibrahim", lit "Meena");
                    (lit "Andro A.", lit "Andro");
                    (lit "Kirolous Kamel", lit "Kiro");
                    (lit "Thomas hanna David's Brother", lit "Thomas");
                    (lit "Aziz El Romancy", lit "Aziz");
                    (lit "Aziz El Romancy" ++ [128525], lit "Aziz") ])
    by reflexivity.
  rewrite (H name). unfold lookup. cbn [get].
  repeat match goal with
  | |- context [str_eqb name ?k] =>
      let E := fresh "E" in
      destruct (str_eqb name k) eqn:E; [vm_compute; reflexivity|]
  end.
  rewrite (H name). unfold lookup. cbn [get].
  repeat match goal with
  | E : str_eqb name ?k = false |- _ => rewrite E; clear E
  end.
  reflexivity.
Qed.

(** ** The previous sender *)

Lemma get_set_present {V} k k' (v : V) d :
  get k' d <> None -> get k' (set k v d) <> None.
Proof.
  intros H. destruct (str_eqb k' k) eqn:E.
  - apply str_eqb_eq in E. subst k'. rewrite get_set_same. discriminate.
  - rewrite get_set_other; [exact H|]. intros ->.
    now rewrite str_eqb_refl in E.
Qed.

Lemma get_update_replied k people prev m :
  get k people <> None -> get k (Stats.update_replied people prev m) <> None.
Proof.
  intros H. unfold Stats.update_replied. destruct prev as [prev|]; [|exact H].
  destruct (negb (str_eqb (sender prev) (sender m))
            && Qltb (Stats.time_diff m prev) 30); [|exact H].
  destruct (get (normalize_name (sender prev)) people); [|exact H].
  now apply get_set_present.
Qed.

Lemma known_prev msgs prev :
  Stats.prev_message (Stats.aggregate msgs) = Some prev ->
  exists p,
    get (normalize_name (sender prev)) (Stats.by_person (Stats.aggregate msgs))
    = Some p.
Proof.
  pattern msgs, (Stats.aggregate msgs). apply aggregate_ind; clear msgs.
  - discriminate.
  - intros l m IH. unfold Stats.process. destruct (is_system m); [exact IH|].
    simpl. intros E. inversion E; subst prev; clear E.
    match goal with
    | |- exists p, ?g = Some p =>
        destruct g as [p|] eqn:Eg; [now exists p | exfalso; revert Eg]
    end.
    apply get_update_replied. rewrite get_set_same. discriminate.
Qed.

Lemma person_messages_positive msgs name p :
  get name (Stats.by_person (Stats.aggregate msgs)) = Some p ->
  1 <= Person.messages p.
Proof.
  revert p. pattern msgs, (Stats.aggregate msgs). apply aggregate_ind; clear msgs.
  - discriminate.
  - intros l m IH p. unfold Stats.process. destruct (is_system m); [apply IH|].
    simpl.
    set (k := normalize_name (sender m)).
    set (people := set k _ _).
    assert (Hpeople : forall q, get name people = Some q -> 1 <= Person.messages q).
    { intros q. unfold people. destruct (str_eqb name k) eqn:E.
      - apply str_eqb_eq in E. subst name. rewrite get_set_same.
        intros Hq. inversion Hq. simpl. unfold lookup.
        destruct (get k (Stats.by_person (Stats.aggregate l))) as [q0|].
        + specialize (IH _ eq_refl). lia.
        + simpl. lia.
      - rewrite get_set_other; [apply IH|]. intros ->.
        now rewrite str_eqb_refl in E. }
    clearbody people. unfold Stats.update_replied.
    destruct (Stats.prev_message (Stats.aggregate l)) as [prev|];
      [|apply Hpeople].
    destruct (negb (str_eqb (sender prev) (sender m))
              && Qltb (Stats.time_diff m prev) 30); [|apply Hpeople].
    destruct (get (normalize_name (sender prev)) people) as [q0|] eqn:E0;
      [|apply Hpeople].
    destruct (str_eqb name (normalize_name (sender prev))) eqn:E.
    + apply str_eqb_eq in E. subst name. rewrite get_set_same.
      intros Hq. inversion Hq. simpl. now apply Hpeople.
    + rewrite get_set_other; [apply Hpeople|]. intros ->.
      now rewrite str_eqb_refl in E.
Qed.

(** X20: The test [prev_sender in stats['by_person']] never fails: whenever
    the loop holds a previous message, the normalized name of its
    sender is a key of [by_person], with at least one message. *)
Theorem previous_sender_is_known msgs prev :
  Stats.prev_message (Stats.aggregate msgs) = Some prev ->
  exists p,
    get (normalize_name (sender prev)) (Stats.by_person (Stats.aggregate msgs))
    = Some p
    /\ 1 <= Person.messages p.
Proof.
  intros H. destruct (known_prev _ _ H) as [p Hp]. exists p.
  split; [exact Hp|]. exact (person_messages_positive _ _ _ Hp).
Qed.

(** ** One step of the loop, seen from one name *)

Lemma person_of_process l m name :
  is_system m = false ->
  let st := Stats.aggregate l in
  let p := if str_eqb name (normalize_name (sender m))
           then Stats.update_person (person_of st name)
                  (Stats.prev_message st) m
           else person_of st name in
  person_of (Stats.process st m) name
  = if replies_to (Stats.prev_message st) m name then Person.replied p else p.
Proof.
  intros Hm. cbv zeta. unfold person_of, Stats.process. rewrite Hm. simpl.
  set (k := normalize_name (sender m)).
  set (people := set k _ _).
  assert (Hpeople :
    lookup Person.fresh name people
    = if str_eqb name k
      then Stats.update_person
             (lookup Person.fresh name (Stats.by_person (Stats.aggregate l)))
             (Stats.prev_message (Stats.aggregate l)) m
      else lookup Person.fresh name (Stats.by_person (Stats.aggregate l))).
  { unfold people. destruct (str_eqb name k) eqn:E.
    - apply str_eqb_eq in E. subst name. now rewrite lookup_set_same.
    - rewrite lookup_set_other; [reflexivity|]. intros ->.
      now rewrite str_eqb_refl in E. }
  rewrite <- Hpeople.
  assert (Hknown : forall prev,
    Stats.prev_message (Stats.aggregate l) = Some prev ->
    get (normalize_name (sender prev)) people <> None).
  { intros prev Hp. destruct (known_prev _ _ Hp) as [q Hq].
    unfold people. apply get_set_present. rewrite Hq. discriminate. }
  clear Hpeople. clearbody people.
  unfold Stats.update_replied, replies_to.
  destruct (Stats.prev_message (Stats.aggregate l)) as [prev|];
    [|reflexivity].
  specialize (Hknown prev eq_refl).
  destruct (negb (str_eqb (sender prev) (sender m))
            && Qltb (Stats.time_diff m prev) 30); [|reflexivity].
  simpl.
  destruct (get (normalize_name (sender prev)) people) as [q|] eqn:Eq;
    [|contradiction].
  destruct (str_eqb name (normalize_name (sender prev))) eqn:E.
  - apply str_eqb_eq in E. subst name. rewrite lookup_set_same.
    unfold lookup. now rewrite Eq.
  - rewrite lookup_set_other; [reflexivity|]. intros ->.
    now rewrite str_eqb_refl in E.
Qed.

(** X21: In the dictionary of every name, the media and the replies
    received are at most the messages, so that neither [media_ratio]
    nor [engagement_rate] is computed from a quotient above 1: each
    reply received answers another message of that name. *)
Theorem media_and_replies_within_messages msgs name :
  let p := person_of (Stats.aggregate msgs) name in
  0 <= Person.media p <= Person.messages p
  /\ 0 <= Person.replied_to_count p <= Person.messages p.
Proof.
  cbv zeta.
  assert (H : let st := Stats.aggregate msgs in
              forall name,
                let p := person_of st name in
                0 <= Person.media p <= Person.messages p
                /\ 0 <= Person.replied_to_count p
                /\ Person.replied_to_count p
                   + match Stats.prev_message st with
                     | Some prev =>
                         b2z (str_eqb name (normalize_name (sender prev)))
                     | None => 0
                     end
                   <= Person.messages p).
  { cbv zeta. pattern msgs, (Stats.aggregate msgs).
    apply aggregate_ind; clear msgs name.
    - intros name. unfold person_of, lookup. simpl. lia.
    - intros l m IH name. destruct (is_system m) eqn:Hm.
      + rewrite (process_system _ _ Hm). apply IH.
      + rewrite (person_of_process l m name Hm). cbv zeta.
        specialize (IH name). cbv zeta in IH.
        replace (Stats.prev_message (Stats.process (Stats.aggregate l) m))
          with (Some m) by (unfold Stats.process; now rewrite Hm).
        unfold replies_to.
        destruct (Stats.prev_message (Stats.aggregate l)) as [prev|].
        * destruct (str_eqb name (normalize_name (sender m)));
            destruct (negb (str_eqb (sender prev) (sender m))
                      && Qltb (Stats.time_diff m prev) 30);
            destruct (str_eqb name (normalize_name (sender prev)));
            destruct (is_media m) eqn:Em;
            simpl; rewrite ?Em; unfold b2z in *; simpl; lia.
        * destruct (str_eqb name (normalize_name (sender m)));
            destruct (is_media m) eqn:Em;
            simpl; rewrite ?Em; unfold b2z in *; simpl; lia. }
  cbv zeta in H. specialize (H name).
  destruct (Stats.prev_message (Stats.aggregate msgs)) as [prev|];
    [destruct (str_eqb name (normalize_name (sender prev)))|];
    unfold b2z in H; lia.
Qed.

(** X22: Every response time that is collected lies strictly between 0 and
    60 minutes. *)
Theorem response_samples_within_the_hour msgs name x :
  In x (samples (Stats.aggregate msgs) name) -> (0 < x)%Q /\ (x < 60)%Q.
Proof.
  revert name x. pattern msgs, (Stats.aggregate msgs).
  apply aggregate_ind; clear msgs.
  - intros name x. unfold samples, lookup. simpl. tauto.
  - intros l m IH name x. destruct (is_system m) eqn:Hm.
    + rewrite (process_system _ _ Hm). apply IH.
    + unfold samples, Stats.process. rewrite Hm. simpl Stats.by_person.
      rewrite update_replied_samples.
      destruct (str_eqb name (normalize_name (sender m))) eqn:E.
      * apply str_eqb_eq in E. subst name. rewrite lookup_set_same.
        simpl Person.response_times.
        destruct (Stats.prev_message (Stats.aggregate l)) as [prev|];
          [|apply IH].
        destruct (negb (str_eqb (sender prev) (sender m))
                  && Qltb 0 (Stats.time_diff m prev)
                  && Qltb (Stats.time_diff m prev) 60) eqn:Ec; [|apply IH].
        intros Hx. apply in_app_or in Hx. destruct Hx as [Hx|[<-|[]]];
          [now apply (IH _ _ Hx)|].
        apply andb_prop in Ec. destruct Ec as [Ec H60].
        apply andb_prop in Ec. destruct Ec as [_ H0].
        split; now apply Qltb_lt.
      * rewrite lookup_set_other; [apply IH|]. intros ->.
        now rewrite str_eqb_refl in E.
Qed.

(** ** Consecutive messages *)

Lemma hd_rev_cons {A} (a b : A) l :
  hd_error (rev (a :: b :: l)) = hd_error (rev (b :: l)).
Proof.
  simpl. destruct (rev l ++ [b]) as [|c r] eqn:E; [|reflexivity].
  now destruct (rev l).
Qed.

Lemma adjacent_snoc l m :
  adjacent (l ++ [m])
  = adjacent l ++ match hd_error (rev l) with
                  | Some p => [(p, m)]
                  | None => []
                  end.
Proof.
  induction l as [|a l IH]; [reflexivity|].
  destruct l as [|b l]; [reflexivity|].
  rewrite hd_rev_cons.
  change (adjacent ((a :: b :: l) ++ [m]))
    with ((a, b) :: adjacent ((b :: l) ++ [m])).
  rewrite IH. reflexivity.
Qed.

Lemma prev_message_counted msgs :
  Stats.prev_message (Stats.aggregate msgs)
  = hd_error (rev (filter counted msgs)).
Proof.
  pattern msgs, (Stats.aggregate msgs). apply aggregate_ind; clear msgs.
  - reflexivity.
  - intros l m IH. rewrite filter_app. unfold Stats.process, counted. simpl.
    destruct (is_system m); simpl.
    + now rewrite app_nil_r.
    + rewrite rev_app_distr. reflexivity.
Qed.

Lemma pairs_snoc l m :
  pairs (l ++ [m])
  = if is_system m then pairs l
    else pairs l ++ match Stats.prev_message (Stats.aggregate l) with
                    | Some p => [(p, m)]
                    | None => []
                    end.
Proof.
  unfold pairs. rewrite filter_app, prev_message_counted. unfold counted at 2.
  simpl. destruct (is_system m); simpl.
  - now rewrite app_nil_r.
  - apply adjacent_snoc.
Qed.

Lemma len_filter_snoc {A} (f : A -> bool) l x :
  Stats.len (filter f (l ++ [x])) = Stats.len (filter f l) + b2z (f x).
Proof.
  rewrite filter_app, len_app. simpl. destruct (f x); reflexivity.
Qed.

Lemma sum_over_replied people prev m :
  (forall p, prev = Some p ->
             get (normalize_name (sender p)) people <> None) ->
  sum_over Person.replied_to_count (Stats.update_replied people prev m)
  = sum_over Person.replied_to_count people
    + match prev with
      | Some p => b2z (negb (str_eqb (sender p) (sender m))
                       && Qltb (Stats.time_diff m p) 30)
      | None => 0
      end.
Proof.
  intros Hk. unfold Stats.update_replied. destruct prev as [prev|]; [|lia].
  specialize (Hk prev eq_refl).
  destruct (negb (str_eqb (sender prev) (sender m))
            && Qltb (Stats.time_diff m prev) 30); simpl; [|lia].
  destruct (get (normalize_name (sender prev)) people) as [q|] eqn:E;
    [|contradiction].
  rewrite (sum_over_set_present _ _ _ _ _ E). simpl. lia.
Qed.

(** X23: The counters that compare a message with the one before it, summed
    over the people, count the pairs of consecutive messages (system
    messages left out) that pass the test of the counter: a gap of
    more than 120 minutes for [conversations_started]; two senders
    that differ as written and a gap under 30 minutes for
    [replied_to_count]; two senders that differ as written and a gap
    over 0 and under 60 minutes for the response times.  The first
    message has no pair and adds to none of them. *)
Theorem pair_counters msgs :
  let st := Stats.aggregate msgs in
  let gap (pm : message * message) := Stats.time_diff (snd pm) (fst pm) in
  let differ (pm : message * message) :=
    negb (str_eqb (sender (fst pm)) (sender (snd pm))) in
  sum_over Person.conversations_started (Stats.by_person st)
  = Stats.len (filter (fun pm => Qltb 120 (gap pm)) (pairs msgs))
  /\ sum_over Person.replied_to_count (Stats.by_person st)
     = Stats.len (filter (fun pm => differ pm && Qltb (gap pm) 30) (pairs msgs))
  /\ sum_over (fun p => Stats.len (Person.response_times p)) (Stats.by_person st)
     = Stats.len (filter (fun pm => differ pm && Qltb 0 (gap pm)
                                    && Qltb (gap pm) 60) (pairs msgs)).
Proof.
  cbv zeta. pattern msgs, (Stats.aggregate msgs). apply aggregate_ind; clear msgs.
  - repeat split.
  - intros l m (H1 & H2 & H3). rewrite pairs_snoc.
    destruct (is_system m) eqn:Hm.
    + rewrite (process_system _ _ Hm). repeat split; assumption.
    + unfold Stats.process. rewrite Hm. simpl Stats.by_person.
      rewrite (sum_over_update_replied Person.conversations_started)
        by reflexivity.
      rewrite (sum_over_update_replied
                 (fun p => Stats.len (Person.response_times p)))
        by reflexivity.
      rewrite sum_over_replied.
      2:{ intros p Hp. destruct (known_prev _ _ Hp) as [q Hq].
          apply get_set_present. rewrite Hq. discriminate. }
      rewrite !(sum_over_set _ Person.fresh) by reflexivity.
      simpl Person.conversations_started. simpl Person.replied_to_count.
      simpl Person.response_times.
      destruct (Stats.prev_message (Stats.aggregate l)) as [prev|].
      * rewrite !len_filter_snoc. simpl fst. simpl snd.
        rewrite <- H1, <- H2, <- H3.
        destruct (negb (str_eqb (sender prev) (sender m))
                  && Qltb 0 (Stats.time_diff m prev)
                  && Qltb (Stats.time_diff m prev) 60);
          rewrite ?len_app; unfold b2z, Stats.len; simpl length;
          repeat split; lia.
      * rewrite !app_nil_r. repeat split; lia.
Qed.

(** ** First and last message of a name *)

Lemma named_snoc name l m :
  filter (named name) (l ++ [m])
  = filter (named name) l ++ (if named name m then [m] else []).
Proof. rewrite filter_app. simpl. now destruct (named name m). Qed.

Lemma str_eqb_sym a b : str_eqb a b = str_eqb b a.
Proof.
  destruct (str_eqb a b) eqn:E.
  - apply str_eqb_eq in E. subst. now rewrite str_eqb_refl.
  - destruct (str_eqb b a) eqn:E'; [|reflexivity].
    apply str_eqb_eq in E'. subst. now rewrite str_eqb_refl in E.
Qed.

(** X24: For every name, [first_message] and [last_message] are the
    timestamps of the first and of the last message in the list whose
    normalized sender is that name, whatever the timestamps are;
    [None] when there is no such message. *)
Theorem first_and_last_message msgs name :
  let p := person_of (Stats.aggregate msgs) name in
  let own := filter (named name) msgs in
  Person.first_message p = option_map date (hd_error own)
  /\ Person.last_message p = option_map date (hd_error (rev own)).
Proof.
  cbv zeta. pattern msgs, (Stats.aggregate msgs). apply aggregate_ind; clear msgs.
  - split; reflexivity.
  - intros l m [H1 H2]. rewrite named_snoc. unfold named at 2 4, counted.
    destruct (is_system m) eqn:Hm.
    + rewrite (process_system _ _ Hm). simpl. rewrite app_nil_r. now split.
    + rewrite (person_of_process l m name Hm). cbv zeta. simpl negb.
      rewrite andb_true_l, (str_eqb_sym _ name).
      assert (Hr : forall q,
                Person.first_message
                  (if replies_to (Stats.prev_message (Stats.aggregate l)) m name
                   then Person.replied q else q)
                = Person.first_message q
                /\ Person.last_message
                     (if replies_to (Stats.prev_message (Stats.aggregate l)) m name
                      then Person.replied q else q)
                   = Person.last_message q)
        by (intros q; destruct (replies_to _ m name); split; reflexivity).
      destruct (Hr (if str_eqb name (normalize_name (sender m))
                    then Stats.update_person
                           (person_of (Stats.aggregate l) name)
                           (Stats.prev_message (Stats.aggregate l)) m
                    else person_of (Stats.aggregate l) name)) as [-> ->].
      destruct (str_eqb name (normalize_name (sender m))).
      * simpl Person.first_message. simpl Person.last_message.
        rewrite H1, rev_app_distr. simpl. split; [|reflexivity].
        now destruct (filter (named name) l).
      * rewrite app_nil_r. now split.
Qed.

(** ** The keys *)

Lemma keys_set {V} k (v : V) d : map fst (set k v d) = add k (map fst d).
Proof.
  unfold add. induction d as [|[k' v'] d IH]; simpl; [reflexivity|].
  destruct (str_eqb k k'); simpl; [reflexivity|]. rewrite IH.
  now destruct (existsb (str_eqb k) (map fst d)).
Qed.

Lemma keys_update_replied people prev m :
  map fst (Stats.update_replied people prev m) = map fst people.
Proof.
  unfold Stats.update_replied. destruct prev as [prev|]; [|reflexivity].
  destruct (negb (str_eqb (sender prev) (sender m))
            && Qltb (Stats.time_diff m prev) 30); [|reflexivity].
  destruct (get (normalize_name (sender prev)) people) as [q|] eqn:E;
    [|reflexivity].
  rewrite keys_set. unfold add.
  replace (existsb (str_eqb (normalize_name (sender prev))) (map fst people))
    with true; [reflexivity|].
  symmetry. clear -E. induction people as [|[k v] d IH]; simpl in *;
    [discriminate|].
  destruct (str_eqb (normalize_name (sender prev)) k); [reflexivity|].
  now apply IH.
Qed.

Lemma in_add k s x : In x (add k s) <-> x = k \/ In x s.
Proof.
  unfold add. destruct (existsb (str_eqb k) s) eqn:E.
  - split; [auto|]. intros [->|H]; [|exact H].
    apply existsb_exists in E. destruct E as (y & Hy & Hk).
    apply str_eqb_eq in Hk. now subst y.
  - rewrite in_app_iff. simpl. intuition.
Qed.

Lemma NoDup_add k s : NoDup s -> NoDup (add k s).
Proof.
  intros H. unfold add. destruct (existsb (str_eqb k) s) eqn:E; [exact H|].
  apply NoDup_app; [exact H | repeat constructor; intros [] |].
  intros x Hx [->|[]].
  assert (existsb (str_eqb x) s = true); [|congruence].
  apply existsb_exists. exists x. split; [exact Hx | apply str_eqb_refl].
Qed.

(** X25: The keys of [by_person] are the normalized names of the senders of
    the messages that are counted, each once. *)
Theorem people_are_the_normalized_senders msgs :
  let keys := map fst (Stats.by_person (Stats.aggregate msgs)) in
  NoDup keys
  /\ forall name,
       In name keys
       <-> exists m, In m msgs /\ is_system m = false
                     /\ normalize_name (sender m) = name.
Proof.
  cbv zeta. pattern msgs, (Stats.aggregate msgs). apply aggregate_ind; clear msgs.
  - split; [constructor|]. intros name. simpl. split; [tauto|].
    intros (m & [] & _).
  - intros l m [Hn Hk]. destruct (is_system m) eqn:Hm.
    + rewrite (process_system _ _ Hm). split; [exact Hn|]. intros name.
      rewrite Hk. split; intros (x & Hx & Hs & He); exists x.
      * rewrite in_app_iff. auto.
      * apply in_app_or in Hx. destruct Hx as [Hx|[<-|[]]]; [auto|congruence].
    + unfold Stats.process. rewrite Hm. simpl Stats.by_person.
      rewrite keys_update_replied, keys_set. split; [now apply NoDup_add|].
      intros name. rewrite in_add, Hk. split.
      * intros [->|(x & Hx & Hs & He)].
        -- exists m. rewrite in_app_iff. simpl. auto.
        -- exists x. rewrite in_app_iff. auto.
      * intros (x & Hx & Hs & He). apply in_app_or in Hx.
        destruct Hx as [Hx|[<-|[]]]; [right; now exists x | now left].
Qed.

(** X26: [total_days], the size of the set of the days with a message, is
    the number of keys of [daily_counts]. *)
Theorem total_days_counts_the_days round1 list_of_set msgs res :
  Stats.calculate_stats round1 list_of_set msgs = Ok res ->
  Stats.r_total_days res = Stats.len (Stats.r_daily_counts res).
Proof.
  assert (H : Stats.active_days (Stats.aggregate msgs)
              = map fst (Stats.daily_counts (Stats.aggregate msgs))).
  { pattern msgs, (Stats.aggregate msgs). apply aggregate_ind; clear msgs.
    - reflexivity.
    - intros l m IH. unfold Stats.process. destruct (is_system m); [exact IH|].
      simpl. now rewrite keys_set, IH. }
  destruct (calculate_stats_finalized round1 list_of_set msgs)
    as (people & _ & ->).
  destruct (Stats.max_item _) as [best|]; [|discriminate].
  simpl. intros E. inversion E; subst res; clear E. simpl.
  unfold Stats.len.
  rewrite (Permutation_length (enumerate_set list_of_set _)), H.
  now rewrite length_map.
Qed.

(** ** The longest message *)

(** X27: [longest_message] is as long as the longest text message that is
    counted, and it is either the initial entry of length 0 or the
    entry of one of those messages, under the normalized name of its
    sender and with a preview of its first 150 characters. *)
Theorem longest_message_is_longest msgs :
  let lm := Stats.longest_message (Stats.aggregate msgs) in
  (forall m, In m msgs -> is_system m = false -> is_media m = false ->
             Stats.len (content m) <= Stats.l_length lm)
  /\ (lm = Stats.mkLongest [] 0 []
      \/ exists m,
           In m msgs /\ is_system m = false /\ is_media m = false
           /\ lm = Stats.mkLongest (normalize_name (sender m))
                     (Stats.len (content m))
                     (firstn 150 (content m)
                      ++ (if 150 <? Stats.len (content m)
                          then lit "..." else []))).
Proof.
  cbv zeta. pattern msgs, (Stats.aggregate msgs). apply aggregate_ind; clear msgs.
  - split; [intros m []|]. now left.
  - intros l m [Hmax Hin].
    assert (Hin' : Stats.longest_message (Stats.aggregate l)
                   = Stats.mkLongest [] 0 []
                   \/ exists m0,
                        In m0 (l ++ [m]) /\ is_system m0 = false
                        /\ is_media m0 = false
                        /\ Stats.longest_message (Stats.aggregate l)
                           = Stats.mkLongest (normalize_name (sender m0))
                               (Stats.len (content m0))
                               (firstn 150 (content m0)
                                ++ (if 150 <? Stats.len (content m0)
                                    then lit "..." else []))).
    { destruct Hin as [H|(x & Hx & H)]; [now left|]. right. exists x.
      rewrite in_app_iff. auto. }
    clear Hin. destruct (is_system m) eqn:Hm.
    + rewrite (process_system _ _ Hm). split; [|exact Hin'].
      intros x Hx Hs. apply in_app_or in Hx.
      destruct Hx as [Hx|[<-|[]]]; [now apply Hmax | congruence].
    + unfold Stats.process. rewrite Hm. simpl Stats.longest_message.
      unfold Stats.update_longest. destruct (is_media m) eqn:Em; simpl.
      * split; [|exact Hin']. intros x Hx Hs Hmed. apply in_app_or in Hx.
        destruct Hx as [Hx|[<-|[]]]; [now apply Hmax | congruence].
      * destruct (Stats.l_length (Stats.longest_message (Stats.aggregate l))
                  <? Stats.len (content m)) eqn:El.
        -- apply Z.ltb_lt in El. simpl. split.
           ++ intros x Hx Hs Hmed. apply in_app_or in Hx.
              destruct Hx as [Hx|[<-|[]]]; [|lia].
              specialize (Hmax x Hx Hs Hmed). lia.
           ++ right. exists m. rewrite in_app_iff. simpl. auto.
        -- apply Z.ltb_ge in El. split; [|exact Hin'].
           intros x Hx Hs Hmed. apply in_app_or in Hx.
           destruct Hx as [Hx|[<-|[]]]; [now apply Hmax | exact El].
Qed.

(** * From the lines of the file to the statistics *)

(** X28: [main] parses every input, and its statistics depend on the
    messages that the filter keeps: when each of them is a system
    message, none at all among them, [calculate_stats] raises
    [ValueError]; otherwise it returns statistics that count the
    messages kept that are not system messages, and the counts of the
    hours add up to that number, the parser having let through valid
    timestamps only. *)
Theorem main_stats_outcome decimal_ext lower round1 list_of_set lines :
  exists st,
    Parser.parse_chat decimal_ext lower lines = Ok st
    /\ let kept := filter_last_365_days (Parser.emitted st) in
       if forallb is_system kept
       then main_stats decimal_ext lower round1 list_of_set lines
            = Raise ValueError
       else exists res,
              main_stats decimal_ext lower round1 list_of_set lines = Ok res
              /\ Stats.r_total_messages res = Stats.len (filter counted kept)
              /\ total (Stats.r_by_hour res) = Stats.r_total_messages res.
Proof.
  destruct (parse_chat_total decimal_ext lower lines) as [st Hst].
  exists st. split; [exact Hst|]. cbv zeta. unfold main_stats. rewrite Hst.
  simpl. set (kept := filter_last_365_days (Parser.emitted st)).
  destruct (forallb is_system kept) eqn:E; [now apply only_system_raises|].
  destruct (calculate_stats_finalized round1 list_of_set kept)
    as (people & _ & ->).
  destruct (Stats.daily_counts (Stats.aggregate kept)) as [|x d] eqn:Ed.
  - apply daily_counts_empty in Ed. congruence.
  - simpl. eexists. split; [reflexivity|]. simpl.
    split; [apply total_messages_count|].
    apply by_hour_total. intros m Hm. unfold kept, filter_last_365_days in Hm.
    apply filter_In in Hm. destruct Hm as [Hm _].
    pose proof (emitted_valid decimal_ext lower _ _ _ Hst Hm) as Hv.
    unfold valid_datetime in Hv. tauto.
Qed.

(** * The further properties on sample inputs *)

Lemma start_line_alice :
  Parser.message_start Parser.no_ext lower_ascii
    (lit "[11/25/24, 09:00:00 AM] Alice: Hello") (alice_0900 "Hello").
Proof.
  do 6 eexists. repeat split; vm_compute; reflexivity.
Defined.

Lemma rejected_line_bob :
  Parser.rejected Parser.no_ext (lit "[11/31/24, 09:05:00 AM] Bob: Hi").
Proof.
  do 3 eexists. repeat split; vm_compute; reflexivity.
Defined.

Lemma no_ext_range c v : Parser.no_ext c = Some v -> 0 <= v <= 9.
Proof. discriminate. Defined.

Lemma alice_0900_valid text : valid_datetime (date (alice_0900 text)).
Proof. unfold valid_datetime. vm_compute. intuition discriminate. Defined.

(** A message of Bob, then the group of Alice. *)
Lemma start_line_is_boundary_witness :
  exists st st1 st2,
    parse ["[11/25/24, 08:50:00 AM] Bob: earlier";
           "[11/25/24, 09:00:00 AM] Alice: Hello"; "second"]%string = Ok st
    /\ parse ["[11/25/24, 08:50:00 AM] Bob: earlier"%string] = Ok st1
    /\ parse ["[11/25/24, 09:00:00 AM] Alice: Hello"; "second"]%string = Ok st2
    /\ Parser.emitted st = Parser.emitted st1 ++ Parser.emitted st2.
Proof.
  exact (start_line_is_boundary Parser.no_ext lower_ascii
           [lit "[11/25/24, 08:50:00 AM] Bob: earlier"] _ [lit "second"] _
           start_line_alice).
Defined.

(** A line with no message to continue and a line dated November 31,
    before the first message. *)
Lemma lines_before_first_start_are_dropped_witness :
  exists st st',
    parse ["orphan"; "[11/31/24, 09:05:00 AM] Bob: Hi";
           "[11/25/24, 09:00:00 AM] Alice: Hello"]%string = Ok st
    /\ parse ["[11/25/24, 09:00:00 AM] Alice: Hello"%string] = Ok st'
    /\ Parser.emitted st = Parser.emitted st'.
Proof.
  apply (lines_before_first_start_are_dropped Parser.no_ext lower_ascii
           [lit "orphan"; lit "[11/31/24, 09:05:00 AM] Bob: Hi"]
           [lit "[11/25/24, 09:00:00 AM] Alice: Hello"]).
  intros raw m [<-|[<-|[]]]; not_a_start.
Defined.

Lemma one_message_per_start_line_witness :
  exists st,
    parse ["[11/25/24, 08:50:00 AM] Bob: earlier"; "continued";
           "[11/25/24, 09:00:00 AM] Alice: Hello"]%string = Ok st
    /\ map date (Parser.emitted st)
       = Parser.start_dates Parser.no_ext lower_ascii
           (map lit ["[11/25/24, 08:50:00 AM] Bob: earlier"; "continued";
                     "[11/25/24, 09:00:00 AM] Alice: Hello"]%string).
Proof.
  apply (one_message_per_start_line Parser.no_ext lower_ascii
           [lit "[11/25/24, 08:50:00 AM] Bob: earlier"; lit "continued";
            lit "[11/25/24, 09:00:00 AM] Alice: Hello"]).
  intros raw [<-|[<-|[<-|[]]]]; not_rejected.
Defined.

Lemma sender_is_trimmed_without_colon_witness :
  existsb (Z.eqb 58) (sender (alice_0900 "Hello image omitted")) = false
  /\ trimmed (sender (alice_0900 "Hello image omitted")).
Proof.
  assert (H1 : parse log_omitted_later = Ok (state_of log_omitted_later))
    by (vm_compute; reflexivity).
  assert (H2 : In (alice_0900 "Hello image omitted")
                  (Parser.emitted (state_of log_omitted_later)))
    by (vm_compute; left; reflexivity).
  exact (sender_is_trimmed_without_colon Parser.no_ext lower_ascii _ _ _ H1 H2).
Defined.

Lemma emitted_timestamps_are_valid_witness :
  valid_datetime (date (alice_0900 "Hello image omitted"))
  /\ 1950 <= year (date (alice_0900 "Hello image omitted")) <= 2049.
Proof.
  assert (H1 : parse log_omitted_later = Ok (state_of log_omitted_later))
    by (vm_compute; reflexivity).
  assert (H2 : In (alice_0900 "Hello image omitted")
                  (Parser.emitted (state_of log_omitted_later)))
    by (vm_compute; left; reflexivity).
  destruct (emitted_timestamps_are_valid Parser.no_ext lower_ascii _ _ _ H1 H2)
    as [Hv Hy].
  split; [exact Hv | exact (Hy no_ext_range)].
Defined.

(** A left-to-right mark in front of the bracket. *)
Lemma leading_marks_are_ignored_witness :
  Parser.message_start Parser.no_ext lower_ascii
    ([8206] ++ lit "[11/25/24, 09:00:00 AM] Alice: Hello") (alice_0900 "Hello").
Proof.
  exact (leading_marks_are_ignored Parser.no_ext lower_ascii [8206]
           (lit "[11/25/24, 09:00:00 AM] Alice: Hello") (alice_0900 "Hello")
           eq_refl eq_refl start_line_alice).
Defined.

(** A line of three spaces between a message and its continuation. *)
Lemma blank_lines_leave_no_trace_witness :
  exists st st',
    parse ["[11/25/24, 09:00:00 AM] Alice: Hello"; "   "; "second"]%string
    = Ok st
    /\ parse ["[11/25/24, 09:00:00 AM] Alice: Hello"; "second"]%string = Ok st'
    /\ Parser.emitted st = Parser.emitted st'.
Proof.
  exact (blank_lines_leave_no_trace Parser.no_ext lower_ascii
           [lit "[11/25/24, 09:00:00 AM] Alice: Hello"] (lit "   ")
           [lit "second"] eq_refl).
Defined.

Lemma rejected_line_repeats_last_message_witness :
  exists st st',
    parse log_invalid_date = Ok st
    /\ parse ["[11/25/24, 09:00:00 AM] Alice: Hello"%string] = Ok st'
    /\ Parser.emitted st
       = Parser.emitted st' ++ match rev (Parser.emitted st') with
                               | m :: _ => [m]
                               | [] => []
                               end.
Proof.
  exact (rejected_line_repeats_last_message Parser.no_ext lower_ascii
           [lit "[11/25/24, 09:00:00 AM] Alice: Hello"] _ rejected_line_bob).
Defined.

(** The two ends of the window of the filter. *)
Lemma order_agrees_with_elapsed_time_witness :
  dt_leb cutoff end_date = true <-> 0 <= total_seconds end_date cutoff.
Proof.
  exact (order_agrees_with_elapsed_time cutoff end_date
           cutoff_valid end_date_valid).
Defined.

Lemma filter_window_witness :
  In (alice_0900 "Hello") (filter_last_365_days [alice_0900 "Hello"])
  <-> In (alice_0900 "Hello") [alice_0900 "Hello"]
      /\ 0 <= total_seconds (date (alice_0900 "Hello")) cutoff
         <= 366 * 86400 - 1.
Proof.
  exact (filter_window [alice_0900 "Hello"] (alice_0900 "Hello")
           (alice_0900_valid "Hello")).
Defined.

Lemma filter_keeps_time_order_witness :
  chronological (filter_last_365_days [bob_0850 "earlier"; alice_0900 "later"]).
Proof.
  apply filter_keeps_time_order. vm_compute. repeat constructor.
Defined.

Lemma hours_sum_to_total_witness :
  total (Stats.by_hour (Stats.aggregate [at_0900 "X" "A"; at_0910 "Y" "B"]))
  = Stats.total_messages (Stats.aggregate [at_0900 "X" "A"; at_0910 "Y" "B"]).
Proof.
  apply hours_sum_to_total.
  intros m [<-|[<-|[]]]; vm_compute; split; discriminate.
Defined.


(** On [three_days] the 26th and the 27th tie with two messages each,
    after the 25th with one: the 26th is the most active day. *)
Lemma most_active_day_is_first_maximum_witness :
  exists res,
    Stats.calculate_stats Stats.round1_exact Stats.in_order three_days = Ok res
    /\ Stats.r_daily_counts res
       = [([2024; 11; 25], 1); ([2024; 11; 26], 2); ([2024; 11; 27], 2)]
    /\ Stats.r_most_active_day res = ([2024; 11; 26], 2)
    /\ exists pre post,
         Stats.r_daily_counts res = pre ++ Stats.r_most_active_day res :: post
         /\ (forall kv, In kv pre -> snd kv < snd (Stats.r_most_active_day res))
         /\ (forall kv, In kv post -> snd kv <= snd (Stats.r_most_active_day res)).
Proof.
  destruct (Stats.calculate_stats Stats.round1_exact Stats.in_order three_days)
    as [res|] eqn:E; [|vm_compute in E; discriminate E].
  exists res. split; [reflexivity|].
  pose proof (most_active_day_is_first_maximum _ _ _ _ E) as H.
  vm_compute in E. inversion E; subst res.
  split; [reflexivity|]. split; [reflexivity|]. exact H.
Defined.


Lemma previous_sender_is_known_witness :
  exists p,
    get (normalize_name (sender aziz_0905))
      (Stats.by_person (Stats.aggregate [aziz_0900; aziz_0905])) = Some p
    /\ 1 <= Person.messages p.
Proof.
  exact (previous_sender_is_known [aziz_0900; aziz_0905] aziz_0905 eq_refl).
Defined.

Lemma response_samples_within_the_hour_witness :
  (0 < Stats.time_diff (at_0910 "Y" "B") (at_0900 "X" "A"))%Q
  /\ (Stats.time_diff (at_0910 "Y" "B") (at_0900 "X" "A") < 60)%Q.
Proof.
  apply (response_samples_within_the_hour
           [at_0900 "X" "A"; at_0910 "Y" "B"] (lit "Y")).
  vm_compute. left. reflexivity.
Defined.

Lemma total_days_counts_the_days_witness :
  exists res,
    Stats.calculate_stats Stats.round1_exact Stats.in_order
      [at_0900 "X" "A"; at_0910 "Y" "B"] = Ok res
    /\ Stats.r_total_days res = Stats.len (Stats.r_daily_counts res).
Proof.
  destruct (Stats.calculate_stats Stats.round1_exact Stats.in_order
              [at_0900 "X" "A"; at_0910 "Y" "B"])
    as [res|] eqn:E; [|vm_compute in E; discriminate E].
  exists res. split; [reflexivity|].
  exact (total_days_counts_the_days _ _ _ _ E).
Defined.

(** On [log_deleted_twice] the message of the second line has the
    content "a deleted" and is not flagged. *)
Lemma is_deleted_is_one_test_witness :
  exists st st1 st2 copies m,
    parse log_deleted_twice = Ok st
    /\ parse ["[11/25/24, 09:00:00 AM] Alice: a deleted"%string] = Ok st1
    /\ parse [] = Ok st2
    /\ Parser.emitted st
       = Parser.emitted st1 ++ repeat m (S copies) ++ Parser.emitted st2
    /\ m = grown (alice_0900 "a")
             (Parser.continuation_texts Parser.no_ext [lit "deleted"])
    /\ is_deleted m
       = contains (lit "deleted") (lower_ascii (lstrip is_mark (strip (lit "a")))).
Proof.
  apply (is_deleted_is_one_test Parser.no_ext lower_ascii
           [lit "[11/25/24, 09:00:00 AM] Alice: a deleted"]
           (lit "[11/25/24, 09:00:00 AM] Alice: a") [lit "deleted"] []
           (alice_0900 "a") groups_alice_a (lit "a") start_line_alice_a).
  - intros raw m' [<-|[]]. not_a_start.
  - now left.
  - reflexivity.
  - reflexivity.
Defined.
